(** * Markowitz_2.py: the portfolio weight engine and the assignment judge

    A shallow embedding of [src/Markowitz_2.py].

    Numbers.  The program computes with binary64 floats through pandas and
    numpy.  Here a float is a real number or NaN: every finite operation is
    the exact one over [R].  NaN is kept because the program's control of
    missing values ([dropna], [fillna], [ffill], the NaN-skipping
    reductions of pandas) depends on it.

    Two things are outside this number model, and the theorems about the
    program are stated so that they do not rest on them.  Rounding: the
    weights that the program normalizes sum to 1 only up to the rounding of
    binary64, so these theorems give a sum of weights within the tolerance
    0.01 that the program's own position check allows, not as an equality
    (the lemmas on the way that give it as 1 are about exact arithmetic);
    the rounding itself is shown on the binary64 value of the equal weight
    (module [Binary64]).  Infinities: a price of zero would put an infinity
    into the returns, so the theorems that take the returns from a table
    of prices assume that no price is zero: the prices are positive, as
    the data model of the specification has them, or not zero.

    Tables.  A pandas DataFrame is a list of column names and the rows of
    cells, each with its row label (a date).  The column names of a table
    are taken to be distinct, as they are for a table built one ticker at a
    time.  That the dates of a price table are distinct is a hypothesis of
    the theorems that need it. *)

From Stdlib Require Import Reals Lra Psatz String Bool Arith Lia List.
From Stdlib Require Import SpecFloat.
From Stdlib Require DecimalString.
Import ListNotations.

Open Scope R_scope.

(** ** Floats: a real number or NaN *)

Module Float.

(** [None] is NaN. *)
Definition cell := option R.

Definition NaN : cell := None.

Definition fadd (a b : cell) : cell :=
  match a, b with Some x, Some y => Some (x + y) | _, _ => None end.

Definition fsub (a b : cell) : cell :=
  match a, b with Some x, Some y => Some (x - y) | _, _ => None end.

Definition fmul (a b : cell) : cell :=
  match a, b with Some x, Some y => Some (x * y) | _, _ => None end.

(** numpy division: NaN propagates and [0 / 0] is NaN.  A nonzero number
    over zero is a signed infinity in numpy; infinities are outside this
    number model and that case is mapped to NaN too.  In
    [calculate_weights] every zero divisor comes with a zero or NaN
    dividend (lemmas [rp_weights_spec], [minmax_zero_sum],
    [momentum_weights_spec] and [blend_spec] below), so the case is not
    met there.  In [pct_change] it is met when a price is zero: the
    theorems that go through [pct_change] on a table of prices assume
    that no price is zero ([positive_prices], or prices that are not
    zero). *)
Definition fdiv (a b : cell) : cell :=
  match a, b with
  | Some x, Some y => if Req_EM_T y 0 then None else Some (x / y)
  | _, _ => None
  end.

(** [Series.fillna(v)] on one cell. *)
Definition fillna (v : R) (a : cell) : R :=
  match a with Some x => x | None => v end.

(** [a <= b] and [a > b] of numpy: false when an operand is NaN. *)
Definition fleb (a b : cell) : bool :=
  match a, b with
  | Some x, Some y => if Rle_dec x y then true else false
  | _, _ => false
  end.

Definition fgtb (a b : cell) : bool :=
  match a, b with
  | Some x, Some y => if Rlt_dec y x then true else false
  | _, _ => false
  end.

(** The sum of a list of reals. *)
Fixpoint rsum (l : list R) : R :=
  match l with
  | [] => 0
  | x :: l' => x + rsum l'
  end.

(** The non-NaN values of a series. *)
Fixpoint valid (l : list cell) : list R :=
  match l with
  | [] => []
  | Some x :: l' => x :: valid l'
  | None :: l' => valid l'
  end.

(** [Series.sum()]: NaN is skipped, the sum of nothing is 0. *)
Definition nansum (l : list cell) : cell := Some (rsum (valid l)).

(** [Series.min()] and [Series.max()]: NaN is skipped, NaN when nothing is
    left. *)
Fixpoint rmin_list (x : R) (l : list R) : R :=
  match l with
  | [] => x
  | y :: l' => rmin_list (Rmin x y) l'
  end.

Fixpoint rmax_list (x : R) (l : list R) : R :=
  match l with
  | [] => x
  | y :: l' => rmax_list (Rmax x y) l'
  end.

Definition nanmin (l : list cell) : cell :=
  match valid l with
  | [] => None
  | x :: l' => Some (rmin_list x l')
  end.

Definition nanmax (l : list cell) : cell :=
  match valid l with
  | [] => None
  | x :: l' => Some (rmax_list x l')
  end.

(** [Series.mean()] of a series without NaN: NaN for an empty series. *)
Definition mean (l : list R) : cell :=
  match l with
  | [] => None
  | _ => Some (rsum l / INR (length l))
  end.

(** [Series.std()] of a series without NaN: the sample standard deviation
    (one degree of freedom removed), NaN below two observations. *)
Definition std (l : list R) : cell :=
  match l with
  | [] | [_] => None
  | _ =>
      let m := rsum l / INR (length l) in
      Some (sqrt (rsum (map (fun x => (x - m) * (x - m)) l)
                  / INR (length l - 1)))
  end.

(** [Series.clip(lower=lo)]: NaN stays NaN. *)
Definition clip_lower (lo : R) (a : cell) : cell :=
  match a with Some x => Some (Rmax x lo) | None => None end.

End Float.
Import Float.

(** ** Binary64: the equal weight as the program stores it *)

(** The floats of the program are those of IEEE 754 binary64, rounded to
    nearest, ties to even.  This module has the few operations that the
    equal weight of line 62 needs, on the Standard Library's specification
    of these floats. *)
Module Binary64.

Definition prec : Z := 53.
Definition emax : Z := 1024.

(** The float of an [int] (exact below [2^53]). *)
Definition of_nat (n : nat) : spec_float :=
  binary_normalize prec emax (Z.of_nat n) 0 false.

(** Float division. *)
Definition div (x y : spec_float) : spec_float := SFdiv prec emax x y.

(** The real number that a finite float stands for (0 is given for an
    infinity and for NaN; the function is used on finite floats only). *)
Definition to_R (x : spec_float) : R :=
  match x with
  | S754_finite s m e =>
      let v :=
        match e with
        | Z0 => IZR (Zpos m)
        | Zpos p => IZR (Zpos m * 2 ^ Zpos p)
        | Zneg p => IZR (Zpos m) / IZR (2 ^ Zpos p)
        end in
      if s then - v else v
  | _ => 0
  end.

(** Line 62: [equal_weight = 1.0 / num_assets]; [None] is the
    [ZeroDivisionError] of Python. *)
Definition equal_weight (num_assets : nat) : option spec_float :=
  if Nat.eqb num_assets 0 then None
  else Some (div (of_nat 1) (of_nat num_assets)).

(** Line 65: the cells that a warm-up date gets under the [num_assets]
    non-excluded columns. *)
Definition warmup_weights (num_assets : nat) : option (list spec_float) :=
  match equal_weight num_assets with
  | Some w => Some (repeat w num_assets)
  | None => None
  end.

End Binary64.

(** Elementwise combination of two series of the same labels. *)
Fixpoint map2 {A B C : Type} (f : A -> B -> C) (l1 : list A) (l2 : list B) : list C :=
  match l1, l2 with
  | x :: l1', y :: l2' => f x y :: map2 f l1' l2'
  | _, _ => []
  end.

(** ** Tables *)

(** A row label.  The tables of the program are indexed by trading dates;
    only equality of labels and their order in the table matter. *)
Definition date := nat.

Record DataFrame (A : Type) : Type := mkFrame {
  columns : list string;
  rows : list (date * list A)
}.
Arguments mkFrame {A} _ _.
Arguments columns {A} _.
Arguments rows {A} _.

(** [df.index] and [len(df)]. *)
Definition index {A : Type} (df : DataFrame A) : list date := map fst (rows df).
Definition len {A : Type} (df : DataFrame A) : nat := length (rows df).

Definition is_nan (c : cell) : bool :=
  match c with None => true | Some _ => false end.

(** [df.dropna()]: the rows with a missing cell are removed. *)
Definition dropna (df : DataFrame cell) : DataFrame cell :=
  mkFrame (columns df) (filter (fun r => negb (existsb is_nan (snd r))) (rows df)).

(** [df.ffill()]: a missing cell takes the last value above it in its
    column, and stays missing when there is none. *)
Definition ffill_cell (prev cur : cell) : cell :=
  match cur with Some _ => cur | None => prev end.

Fixpoint ffill_row (last r : list cell) : list cell :=
  match r with
  | [] => []
  | c :: r' =>
      match last with
      | p :: last' => ffill_cell p c :: ffill_row last' r'
      | [] => c :: ffill_row [] r'
      end
  end.

Fixpoint ffill_from (last : list cell) (rs : list (date * list cell)) : list (date * list cell) :=
  match rs with
  | [] => []
  | (d, r) :: rs' => let r' := ffill_row last r in (d, r') :: ffill_from r' rs'
  end.

Definition ffill (df : DataFrame cell) : DataFrame cell :=
  mkFrame (columns df) (ffill_from [] (rows df)).

(** [df.fillna(v)]. *)
Definition fillna_frame (v : R) (df : DataFrame cell) : DataFrame R :=
  mkFrame (columns df) (map (fun r => (fst r, map (fillna v) (snd r))) (rows df)).

(** [df.fillna(v, inplace=True)] on a table that keeps its cell type. *)
Definition fillna_inplace (v : R) (df : DataFrame cell) : DataFrame cell :=
  mkFrame (columns df) (map (fun r => (fst r, map (fun c => Some (fillna v c)) (snd r))) (rows df)).

(** [df.pct_change()]: each cell over the cell above it, minus one; the
    first row is NaN.  (pandas 2 first fills missing prices forward, its
    default [fill_method='pad']; that is the version whose FutureWarning the
    program silences.) *)
Definition pct_cell (prev cur : cell) : cell := fsub (fdiv cur prev) (Some 1).

Fixpoint pct_from (prev : list cell) (rs : list (date * list cell)) : list (date * list cell) :=
  match rs with
  | [] => []
  | (d, r) :: rs' => (d, map2 pct_cell prev r) :: pct_from r rs'
  end.

Definition pct_change (df : DataFrame cell) : DataFrame cell :=
  mkFrame (columns df)
    (match rows (ffill df) with
     | [] => []
     | (d, r) :: rs' => (d, map (fun _ => NaN) r) :: pct_from r rs'
     end).

(** Boolean-mask selection [xs[mask]] and assignment [xs[mask] = vals],
    [xs[mask] = v]. *)
Fixpoint pick {A : Type} (mask : list bool) (xs : list A) : list A :=
  match mask, xs with
  | m :: mask', x :: xs' => if m then x :: pick mask' xs' else pick mask' xs'
  | _, _ => []
  end.

Fixpoint put {A : Type} (mask : list bool) (vals xs : list A) : list A :=
  match mask, xs with
  | m :: mask', x :: xs' =>
      if m then
        match vals with
        | v :: vals' => v :: put mask' vals' xs'
        | [] => x :: put mask' [] xs'
        end
      else x :: put mask' vals xs'
  | _, _ => xs
  end.

Fixpoint fill {A : Type} (mask : list bool) (v : A) (xs : list A) : list A :=
  match mask, xs with
  | m :: mask', x :: xs' => (if m then v else x) :: fill mask' v xs'
  | _, _ => xs
  end.

(** [df.loc[d, ...] = ...]: every row labelled [d] is rewritten. *)
Definition loc_rows {A : Type} (d : date) (f : list A -> list A)
    (rs : list (date * list A)) : list (date * list A) :=
  map (fun r => if Nat.eqb (fst r) d then (fst r, f (snd r)) else r) rs.

(** [df.loc[d, cols] = vals], the columns [cols] given by their mask. *)
Definition loc_set_masked (df : DataFrame cell) (d : date) (mask : list bool)
    (vals : list cell) : DataFrame cell :=
  mkFrame (columns df) (loc_rows d (put mask vals) (rows df)).

(** [df.loc[d, name] = v].  A name that is not a column yet is added as a
    new, empty column first (pandas' setting with enlargement). *)
Definition loc_set_col (df : DataFrame cell) (d : date) (name : string) (v : cell) : DataFrame cell :=
  let df' :=
    if existsb (String.eqb name) (columns df) then df
    else mkFrame (columns df ++ [name]) (map (fun r => (fst r, snd r ++ [NaN])) (rows df)) in
  mkFrame (columns df')
          (loc_rows d (fill (map (String.eqb name) (columns df')) v) (rows df')).

(** [l[lo:hi]] for [0 <= lo]. *)
Definition iloc_slice {A : Type} (lo hi : nat) (l : list A) : list A :=
  skipn lo (firstn hi l).

(** ** Strategy creation: class [MyPortfolio] *)

(** The floor [1e-6] of the program. *)
Definition eps : R := 1 / 1000000.

(** The attributes of a [MyPortfolio] object.  [portfolio_weights] and
    [portfolio_returns] are created on first use ([hasattr] in the source):
    they are [None] until then.  The window lengths are natural numbers. *)
Record MyPortfolio : Type := mkPortfolio {
  price : DataFrame cell;
  returns : DataFrame R;
  exclude : string;
  lookback : nat;
  momentum_window : nat;
  momentum_weight : R;
  portfolio_weights : option (DataFrame cell);
  portfolio_returns : option (DataFrame R)
}.

(** [MyPortfolio.__init__].  The returns are taken from the table as it is
    given, the stored prices from the table without its incomplete rows. *)
Definition init (price0 : DataFrame cell) (exclude0 : string)
    (lookback0 momentum_window0 : nat) (momentum_weight0 : R) : MyPortfolio :=
  mkPortfolio (dropna price0)
              (fillna_frame 0 (pct_change price0))
              exclude0 lookback0 momentum_window0 momentum_weight0
              None None.

(** [price.columns != exclude] and [price.columns[price.columns != exclude]]. *)
Definition assets_mask (st : MyPortfolio) : list bool :=
  map (fun c => negb (String.eqb c (exclude st))) (columns (price st)).

Definition assets (st : MyPortfolio) : list string :=
  pick (assets_mask st) (columns (price st)).

(** [window.std()] and [window.mean()] of a table of rows, column by
    column, for a table of [ncols] columns. *)
Definition column_of (j : nat) (window : list (list R)) : list R :=
  map (fun r => nth j r 0) window.

Definition frame_std (ncols : nat) (window : list (list R)) : list cell :=
  map (fun j => std (column_of j window)) (seq 0 ncols).

Definition frame_mean (ncols : nat) (window : list (list R)) : list cell :=
  map (fun j => mean (column_of j window)) (seq 0 ncols).

(** Lines 71-73: from the annualized volatilities to the risk-parity
    weights. *)
Definition rp_weights_of (volatilities : list cell) : list cell :=
  let volatilities := map (clip_lower eps) volatilities in
  let inv_vol := map (fun v => fdiv (Some 1) v) volatilities in
  map (fun x => fdiv x (nansum inv_vol)) inv_vol.

(** Lines 76-79: from the trailing mean returns to the momentum weights. *)
Definition momentum_weights_of (means : list cell) : list cell :=
  let momentum_scores := map (fun m => fmul m (Some 252)) means in
  let lo := nanmin momentum_scores in
  let hi := nanmax momentum_scores in
  let momentum_scores :=
    map (fun s => fdiv (fsub s lo) (fadd (fsub hi lo) (Some eps))) momentum_scores in
  map (fun s => fdiv s (nansum momentum_scores)) momentum_scores.

(** Lines 81-82: the blend and its renormalization. *)
Definition blend (w : R) (rp_weights momentum_weights : list cell) : list cell :=
  let weights :=
    map2 fadd (map (fun x => fmul (Some (1 - w)) x) rp_weights)
              (map (fun x => fmul (Some w) x) momentum_weights) in
  map (fun x => fdiv x (nansum weights)) weights.

(** [self.returns[assets]], row by row.  Both tables have the columns of
    the table given to [__init__], so the asset columns of the returns are
    those of the mask. *)
Definition asset_returns (st : MyPortfolio) : list (list R) :=
  map (fun r => pick (assets_mask st) (snd r)) (rows (returns st)).

Definition volatilities_at (st : MyPortfolio) (i : nat) : list cell :=
  let returns_window := iloc_slice (i - lookback st) i (asset_returns st) in
  map (fun s => fmul s (Some (sqrt 252)))
      (frame_std (length (assets st)) returns_window).

Definition mean_returns_at (st : MyPortfolio) (i : nat) : list cell :=
  let momentum_window := iloc_slice (i - momentum_window st) i (asset_returns st) in
  frame_mean (length (assets st)) momentum_window.

(** The body of the second loop, lines 69-82: the weights of date [i]. *)
Definition steady_weights (st : MyPortfolio) (i : nat) : list cell :=
  let rp_weights := rp_weights_of (volatilities_at st i) in
  let momentum_weights := momentum_weights_of (mean_returns_at st i) in
  blend (momentum_weight st) rp_weights momentum_weights.

(** One turn of the first loop (lines 64-66) and of the second (lines 69-85). *)
Definition warmup_step (st : MyPortfolio) (equal_weight : R)
    (pw : DataFrame cell) (i : nat) : DataFrame cell :=
  if Nat.ltb i (len (price st)) then
    let d := nth i (index (price st)) O in
    let pw := loc_set_masked pw d (assets_mask st)
                (repeat (Some equal_weight) (length (assets st))) in
    loc_set_col pw d (exclude st) (Some 0)
  else pw.

Definition steady_step (st : MyPortfolio) (pw : DataFrame cell) (i : nat) : DataFrame cell :=
  let d := nth i (index (price st)) O in
  let pw := loc_set_masked pw d (assets_mask st) (steady_weights st i) in
  loc_set_col pw d (exclude st) (Some 0).

(** The table of line 57: the labels and columns of the prices, every cell
    missing. *)
Definition empty_weights (st : MyPortfolio) : DataFrame cell :=
  mkFrame (columns (price st))
          (map (fun d => (d, repeat NaN (length (columns (price st)))))
               (index (price st))).

(** The table after the two loops, before the fills of lines 87-88. *)
Definition raw_weights (st : MyPortfolio) (equal_weight : R) : DataFrame cell :=
  let k := Nat.max (lookback st) (momentum_window st) in
  let pw := fold_left (warmup_step st equal_weight) (seq 0 k) (empty_weights st) in
  fold_left (steady_step st) (seq k (len (price st) - k)) pw.

(** [MyPortfolio.calculate_weights].  [None] is the [ZeroDivisionError] of
    line 62 when no column is left besides the excluded one. *)
Definition calculate_weights (st : MyPortfolio) : option MyPortfolio :=
  let num_assets := length (assets st) in
  if Nat.eqb num_assets 0 then None
  else
    let equal_weight := 1 / INR num_assets in
    let pw := fillna_inplace 0 (ffill (raw_weights st equal_weight)) in
    Some (mkPortfolio (price st) (returns st) (exclude st) (lookback st)
                      (momentum_window st) (momentum_weight st)
                      (Some pw) (portfolio_returns st)).

(** [df.loc[d]] as a lookup: the first row labelled [d]. *)
Fixpoint lookup_row {A : Type} (d : date) (rs : list (date * list A)) : option (list A) :=
  match rs with
  | [] => None
  | r :: rs' => if Nat.eqb (fst r) d then Some (snd r) else lookup_row d rs'
  end.

(** [left.mul(right)] on the asset columns, for the row labels of [left]:
    pandas aligns the two tables on their labels, and a label that [right]
    does not have gives a row of NaN. *)
Definition mul_aligned (mask : list bool) (left : DataFrame R)
    (right : DataFrame cell) : list (date * list cell) :=
  map (fun r =>
         let ret := pick mask (snd r) in
         match lookup_row (fst r) (rows right) with
         | Some w => (fst r, map2 fmul (map Some ret) (pick mask w))
         | None => (fst r, map (fun _ => NaN) ret)
         end)
      (rows left).

(** [df[name] = vals]: the column is replaced, or added when new. *)
Definition set_column {A : Type} (name : string) (vals : list A) (df : DataFrame A) : DataFrame A :=
  if existsb (String.eqb name) (columns df) then
    mkFrame (columns df)
            (map2 (fun r v => (fst r, fill (map (String.eqb name) (columns df)) v (snd r)))
                  (rows df) vals)
  else
    mkFrame (columns df ++ [name])
            (map2 (fun r v => (fst r, snd r ++ [v])) (rows df) vals).

(** The series assigned at lines 96-100: [.sum(axis=1)] skips NaN. *)
Definition portfolio_series (st : MyPortfolio) (pw : DataFrame cell) : list R :=
  map (fun r => rsum (valid (snd r))) (mul_aligned (assets_mask st) (returns st) pw).

(** [MyPortfolio.calculate_portfolio_returns]. *)
Definition calculate_portfolio_returns (st : MyPortfolio) : option MyPortfolio :=
  match (match portfolio_weights st with
         | None => calculate_weights st
         | Some _ => Some st
         end) with
  | None => None
  | Some st1 =>
      match portfolio_weights st1 with
      | None => None
      | Some pw =>
          let pr := set_column "Portfolio" (portfolio_series st1 pw) (returns st1) in
          Some (mkPortfolio (price st1) (returns st1) (exclude st1) (lookback st1)
                            (momentum_window st1) (momentum_weight st1)
                            (Some pw) (Some pr))
      end
  end.

(** [MyPortfolio.get_results]; [None] when an exception escapes. *)
Definition get_results (st : MyPortfolio) : option (DataFrame cell * DataFrame R) :=
  match (match portfolio_returns st with
         | None => calculate_portfolio_returns st
         | Some _ => Some st
         end) with
  | None => None
  | Some st1 =>
      match portfolio_weights st1, portfolio_returns st1 with
      | Some pw, Some pr => Some (pw, pr)
      | _, _ => None
      end
  end.

(** ** Assignment judge *)

(** Printing and exceptions: a computation gives the lines it printed and
    its value, or no value when an exception escaped. *)
Module Out.

Definition M (A : Type) : Type := (list string * option A)%type.

Definition ret {A : Type} (x : A) : M A := ([], Some x).

Definition bind {A B : Type} (m : M A) (f : A -> M B) : M B :=
  match m with
  | (o, Some x) => let (o', r) := f x in (o ++ o', r)
  | (o, None) => (o, None)
  end.

Definition print (s : string) : M unit := ([s], Some tt).

Definition lift {A : Type} (x : option A) : M A := ([], x).

End Out.
Import Out.

Notation "x <- m ;; k" := (bind m (fun x => k))
  (at level 61, m at next level, right associativity).
Notation "m ;;; k" := (bind m (fun _ => k))
  (at level 61, right associativity).

(** [df[name]]: the column of that name, [None] for a [KeyError]. *)
Fixpoint col_pos (name : string) (cols : list string) : option nat :=
  match cols with
  | [] => None
  | c :: cols' =>
      if String.eqb c name then Some O
      else match col_pos name cols' with Some p => Some (S p) | None => None end
  end.

Definition get_column {A : Type} (dflt : A) (name : string) (df : DataFrame A)
    : option (list (date * A)) :=
  match col_pos name (columns df) with
  | Some p => Some (map (fun r => (fst r, nth p (snd r) dflt)) (rows df))
  | None => None
  end.

Fixpoint lookup_value {A : Type} (d : date) (s : list (date * A)) : option A :=
  match s with
  | [] => None
  | r :: s' => if Nat.eqb (fst r) d then Some (snd r) else lookup_value d s'
  end.

Section Judge.

(** [qs.stats.sharpe] of the quantstats library: the Sharpe ratio of each
    column of a table of returns. *)
Variable qs_stats_sharpe : DataFrame cell -> list cell.

(** The module-level tables [df] and [Bdf] downloaded at import. *)
Variables df Bdf : DataFrame cell.

Record AssignmentJudge : Type := mkJudge {
  mp : DataFrame cell * DataFrame R;
  Bmp : DataFrame cell * DataFrame R
}.

(** [AssignmentJudge.__init__]. *)
Definition judge_init : option AssignmentJudge :=
  match get_results (init df "SPY" 50 20 (1 / 2)) with
  | None => None
  | Some r1 =>
      match get_results (init Bdf "SPY" 50 20 (1 / 2)) with
      | None => None
      | Some r2 => Some (mkJudge r1 r2)
      end
  end.

(** [AssignmentJudge.report_metrics] with [show=False], as the checks
    call it.  The second column of [df_bl] is aligned on the labels of
    the first. *)
Definition report_metrics (price0 : DataFrame cell)
    (strategy : DataFrame cell * DataFrame R) : option (list cell) :=
  let returns0 := fillna_frame 0 (pct_change price0) in
  match get_column 0 "SPY" returns0 with
  | None => None
  | Some spy =>
      match get_column 0 "Portfolio" (snd strategy) with
      | None => None
      | Some mp_col =>
          let df_bl :=
            mkFrame ["SPY"%string; "MP"%string]
              (map (fun r => (fst r, [Some (snd r); lookup_value (fst r) mp_col])) spy) in
          Some (qs_stats_sharpe df_bl)
      end
  end.

(** [AssignmentJudge.check_portfolio_position]. *)
Definition check_portfolio_position (portfolio_weights0 : DataFrame cell) : M bool :=
  if forallb (fun r => fleb (nansum (snd r)) (Some (101 / 100))) (rows portfolio_weights0)
  then ret true
  else print "Portfolio Position Exceeds 1. No Leverage." ;;; ret false.

(** [AssignmentJudge.check_sharp_ratio_greater_than_one]. *)
Definition check_sharp_ratio_greater_than_one (self : AssignmentJudge) : M nat :=
  ok <- check_portfolio_position (fst (mp self)) ;;
  if negb ok then ret 0%nat
  else
    sharpe <- lift (report_metrics df (mp self)) ;;
    s1 <- lift (nth_error sharpe 1) ;;
    if fgtb s1 (Some 1) then
      print "Problem 4.1 Success - Get 15 points" ;;; ret 15%nat
    else
      print "Problem 4.1 Fail" ;;; ret 0%nat.

(** [AssignmentJudge.check_sharp_ratio_greater_than_spy]. *)
Definition check_sharp_ratio_greater_than_spy (self : AssignmentJudge) : M nat :=
  ok <- check_portfolio_position (fst (mp self)) ;;
  if negb ok then ret 0%nat
  else
    sharpe1 <- lift (report_metrics Bdf (Bmp self)) ;;
    s1 <- lift (nth_error sharpe1 1) ;;
    sharpe0 <- lift (report_metrics Bdf (Bmp self)) ;;
    s0 <- lift (nth_error sharpe0 0) ;;
    if fgtb s1 s0 then
      print "Problem 4.2 Success - Get 15 points" ;;; ret 15%nat
    else
      print "Problem 4.2 Fail" ;;; ret 0%nat.

(** [AssignmentJudge.check_all_answer]. *)
Definition check_all_answer (self : AssignmentJudge) : M nat :=
  s1 <- check_sharp_ratio_greater_than_one self ;;
  s2 <- check_sharp_ratio_greater_than_spy self ;;
  ret (s1 + s2)%nat.

End Judge.

(** ** The judge's tables for plotting, and the score flag of the command line *)





(** [df_weights[df_weights < 0] = 0] on one cell: NaN is not below 0. *)
Definition clip_negative (c : cell) : cell :=
  match c with
  | Some x => if Rlt_dec x 0 then Some 0 else Some x
  | None => None
  end.

(** [AssignmentJudge.plot_allocation]: the table that is handed to
    [plot.area]; the drawing is not modelled. *)
Definition plot_allocation (df_weights : DataFrame cell) : DataFrame cell :=
  let df_weights := ffill (fillna_inplace 0 df_weights) in
  mkFrame (columns df_weights)
          (map (fun r => (fst r, map clip_negative (snd r))) (rows df_weights)).

(** [str(n)] inside an f-string. *)
Definition show_nat (n : nat) : string :=
  DecimalString.NilEmpty.string_of_uint (Nat.to_uint n).

(** [tok in args.score]. *)
Definition among (tok : string) (toks : list string) : bool :=
  existsb (String.eqb tok) toks.

(** The [--score] part of the main block (lines 236-243).  [args.score] is
    [None] without the flag and the list of the tokens given with it
    otherwise. *)
Definition main_score (qs_stats_sharpe : DataFrame cell -> list cell)
    (df Bdf : DataFrame cell) (judge : AssignmentJudge)
    (score : option (list string)) : M unit :=
  match score with
  | None => ret tt
  | Some [] => ret tt
  | Some toks =>
      if among "one" toks || among "spy" toks then
        (if among "one" toks
         then check_sharp_ratio_greater_than_one qs_stats_sharpe df judge ;;; ret tt
         else ret tt) ;;;
        (if among "spy" toks
         then check_sharp_ratio_greater_than_spy qs_stats_sharpe Bdf judge ;;; ret tt
         else ret tt)
      else if among "all" toks then
        total <- check_all_answer qs_stats_sharpe df Bdf judge ;;
        print ("==> total Score = " ++ show_nat total ++ " <==")
      else ret tt
  end.

(** * Reference forms

    The definitions that the statements below are written with: the steps
    of a steady-state date over the reals, the row that a loop turn writes,
    the weight table, the example tables, and what each claim says of one
    run. *)

(** The risk-parity weights over the reals. *)
Definition rp_real (vs : list R) : list R :=
  let inv_vol := map (fun v => 1 / Rmax v eps) vs in
  map (fun x => x / rsum inv_vol) inv_vol.

(** The min-max scores and the momentum weights over the reals. *)
Definition minmax_real (ms : list R) : list R :=
  match map (fun m => m * 252) ms with
  | [] => []
  | s :: rest =>
      let lo := rmin_list s rest in
      let hi := rmax_list s rest in
      map (fun x => (x - lo) / (hi - lo + eps)) (s :: rest)
  end.

Definition momentum_real (ms : list R) : list R :=
  map (fun x => x / rsum (minmax_real ms)) (minmax_real ms).

(** The blend over the reals. *)
Definition blend_real (w : R) (rp mom : list R) : list R :=
  let weights := map2 (fun x y => (1 - w) * x + w * y) rp mom in
  map (fun x => x / rsum weights) weights.

(** The sample standard deviation of two or more observations. *)
Definition std_real (l : list R) : R :=
  let m := rsum l / INR (length l) in
  sqrt (rsum (map (fun x => (x - m) * (x - m)) l) / INR (length l - 1)).

(** A series of [n] assets is blank (NaN everywhere) or full (numbers that
    sum to 1). *)
Definition blank (n : nat) (l : list cell) : Prop := l = repeat NaN n.

Definition full (n : nat) (l : list cell) : Prop :=
  exists ws, l = map Some ws /\ length ws = n /\ rsum ws = 1.

(** The row that the program writes for a date, from the series [vals] of
    its asset weights: 0 under the excluded column, the weights under the
    other columns in their order. *)
Fixpoint shape (ex : string) (cs : list string) (vals : list cell) : list cell :=
  match cs with
  | [] => []
  | c :: cs' =>
      if String.eqb c ex then Some 0 :: shape ex cs' vals
      else
        match vals with
        | v :: vals' => v :: shape ex cs' vals'
        | [] => NaN :: shape ex cs' []
        end
  end.

(** The mask of the non-excluded columns and the mask of the excluded
    column. *)
Definition amask (ex : string) (cs : list string) : list bool :=
  map (fun c => negb (String.eqb c ex)) cs.

Definition emask (ex : string) (cs : list string) : list bool :=
  map (String.eqb ex) cs.

(** The two assignments of a loop turn, on one row. *)
Definition write_row (st : MyPortfolio) (vals row : list cell) : list cell :=
  fill (emask (exclude st) (columns (price st))) (Some 0)
       (put (assets_mask st) vals row).

(** What a turn of either loop does to one row of the table. *)
Definition turn_on_row (st : MyPortfolio) (guard : nat -> bool) (G : nat -> list cell)
    (r : date * list cell) (i : nat) : date * list cell :=
  if guard i && Nat.eqb (fst r) (nth i (index (price st)) O)
  then (fst r, write_row st (G i) (snd r)) else r.

(** The guard of line 64. *)
Definition in_table (st : MyPortfolio) (i : nat) : bool := Nat.ltb i (len (price st)).

(** The asset weights that the loops write for the date of position [j]:
    the equal weight in the warm-up, the computed weights afterwards. *)
Definition raw_series (st : MyPortfolio) (ew : R) (j : nat) : list cell :=
  if Nat.ltb j (Nat.max (lookback st) (momentum_window st))
  then repeat (Some ew) (length (assets st))
  else steady_weights st j.

(** A dated series of asset weights as a row of the table. *)
Definition shape_row (ex : string) (cs : list string) (dv : date * list cell)
    : date * list cell :=
  (fst dv, shape ex cs (snd dv)).

(** [fillna(0, inplace=True)] on one cell. *)
Definition zero_fill (c : cell) : cell := Some (fillna 0 c).

(** The asset weights that the loops write, date by date. *)
Definition dated_series (st : MyPortfolio) (ew : R) : list (date * list cell) :=
  map (fun j => (nth j (index (price st)) O, raw_series st ew j))
      (seq 0 (len (price st))).

(** The asset weights of the final table, date by date: forward filled,
    then zero filled. *)
Definition final_series (st : MyPortfolio) : list (date * list cell) :=
  map (fun dv => (fst dv, map zero_fill (snd dv)))
      (ffill_from [] (dated_series st (1 / INR (length (assets st))))).

(** The table that [calculate_weights] stores. *)
Definition weights_table (st : MyPortfolio) : DataFrame cell :=
  mkFrame (columns (price st))
          (map (shape_row (exclude st) (columns (price st))) (final_series st)).

(** A small run: three columns, four dates, both windows of length 2. *)
Definition example_price : DataFrame cell :=
  mkFrame ["SPY"%string; "XLB"%string; "XLC"%string]
          [ (0%nat, [Some 100; Some 10; Some 20]);
            (1%nat, [Some 101; Some 11; Some 20]);
            (2%nat, [Some 102; Some 12; Some 21]);
            (3%nat, [Some 103; Some 12; Some 22]) ].

Definition example_portfolio : MyPortfolio :=
  init example_price "SPY" 2 2 (1 / 2).

(** What C1 says of one run: every row of the stored table holds numbers
    that sum to 1 under the non-excluded columns and 0 under the excluded
    column. *)
Definition rows_sum_to_one (st : MyPortfolio) (pw : DataFrame cell) : Prop :=
  forall d row, In (d, row) (rows pw) ->
    (exists ws, pick (assets_mask st) row = map Some ws /\ rsum ws = 1) /\
    (forall k, nth_error (columns pw) k = Some (exclude st) ->
               nth_error row k = Some (Some 0)).

(** The same up to rounding: the numbers under the non-excluded columns
    sum to 1 within the tolerance 0.01 of the position check (line 189
    accepts a row up to 1.01). *)
Definition rows_sum_near_one (st : MyPortfolio) (pw : DataFrame cell) : Prop :=
  forall d row, In (d, row) (rows pw) ->
    (exists ws, pick (assets_mask st) row = map Some ws /\
                Rabs (rsum ws - 1) <= 1 / 100) /\
    (forall k, nth_error (columns pw) k = Some (exclude st) ->
               nth_error row k = Some (Some 0)).

(** A table of prices as the data model has it: every price that is not
    missing is positive. *)
Definition positive_prices (df : DataFrame cell) : Prop :=
  forall d row x, In (d, row) (rows df) -> In (Some x) row -> 0 < x.

(** Prices that do not move: the trailing mean return of every asset is
    the same. *)
Definition flat_price : DataFrame cell :=
  mkFrame ["SPY"%string; "XLB"%string; "XLC"%string]
          [ (0%nat, [Some 100; Some 10; Some 20]);
            (1%nat, [Some 101; Some 10; Some 20]);
            (2%nat, [Some 102; Some 10; Some 20]);
            (3%nat, [Some 103; Some 10; Some 20]) ].

Definition flat_portfolio : MyPortfolio := init flat_price "SPY" 2 2 (1 / 2).

(** The small run with both windows of length 0. *)
Definition zero_window_portfolio : MyPortfolio :=
  init example_price "SPY" 0 0 (1 / 2).

(** Lines 71-72 on one volatility: the inverse of the floored number. *)
Definition inv_floor (v : R) : R := 1 / Rmax v eps.

(** The lowest and the highest momentum score of a series of trailing mean
    returns. *)
Definition low (ms : list R) : R :=
  match map (fun m => m * 252) ms with
  | [] => 0
  | s :: rest => rmin_list s rest
  end.

Definition high (ms : list R) : R :=
  match map (fun m => m * 252) ms with
  | [] => 0
  | s :: rest => rmax_list s rest
  end.

(** The sum of the scores above the lowest one. *)
Definition gap (ms : list R) : R := rsum (map (fun m => m * 252 - low ms) ms).

(** Prices where one asset moved early in the lookback window and both
    stood still on the last date: equal momentum scores, unequal
    volatilities. *)
Definition quiet_price : DataFrame cell :=
  mkFrame ["SPY"%string; "XLB"%string; "XLC"%string]
          [ (0%nat, [Some 100; Some 10; Some 20]);
            (1%nat, [Some 101; Some 11; Some 20]);
            (2%nat, [Some 102; Some 11; Some 20]);
            (3%nat, [Some 103; Some 11; Some 20]) ].

Definition quiet_portfolio : MyPortfolio := init quiet_price "SPY" 3 1 0.

(** The line that [check_portfolio_position] prints. *)
Definition position_message : string := "Portfolio Position Exceeds 1. No Leverage.".

(** The position check of both threshold checks looks at [self.mp[0]]. *)
Definition position_ok (self : AssignmentJudge) : bool :=
  forallb (fun r => fleb (nansum (snd r)) (Some (101 / 100))) (rows (fst (mp self))).

(** What C8 says of one threshold check, given the outcome [ok] of the
    position check and [above] of the Sharpe comparison: the check
    returns, with 15 exactly when both hold, and otherwise with 0 after
    printing a message. *)
Definition threshold_outcome (result : M nat) (ok above : bool) : Prop :=
  exists out score,
    result = (out, Some score) /\
    (score = 15%nat <-> ok = true /\ above = true) /\
    (score <> 15%nat -> score = 0%nat /\ out <> []).

(** A judge over the small run, with a fixed pair of Sharpe ratios. *)
Definition example_sharpe (_ : DataFrame cell) : list cell := [Some (1 / 2); Some 2].

Definition example_judge : AssignmentJudge :=
  mkJudge
    (mkFrame ["SPY"%string; "XLB"%string; "XLC"%string]
             [(0%nat, [Some 0; Some (1 / 2); Some (1 / 2)])],
     mkFrame ["SPY"%string; "XLB"%string; "XLC"%string; "Portfolio"%string]
             [(0%nat, [0; 0; 0; 0])])
    (mkFrame ["SPY"%string; "XLB"%string; "XLC"%string]
             [(0%nat, [Some 0; Some (1 / 2); Some (1 / 2)])],
     mkFrame ["SPY"%string; "XLB"%string; "XLC"%string; "Portfolio"%string]
             [(0%nat, [0; 0; 0; 0])]).


(** A table whose third column starts one date late, as the column of a
    fund listed after the first date of the download. *)
Definition late_listing_price : DataFrame cell :=
  mkFrame ["SPY"%string; "XLB"%string; "XLC"%string]
          [ (0%nat, [Some 100; Some 10; NaN]);
            (1%nat, [Some 101; Some 11; Some 20]);
            (2%nat, [Some 102; Some 12; Some 21]) ].

Definition late_listing_portfolio : MyPortfolio :=
  init late_listing_price "SPY" 50 20 (1 / 2).

(** A table without missing prices. *)
Definition no_missing (df : DataFrame cell) : Prop :=
  forall r, In r (rows df) -> existsb is_nan (snd r) = false.

(** A series without a negative number. *)
Definition nonneg_series (l : list cell) : Prop :=
  forall x, In (Some x) l -> 0 <= x.

(** The small run with other prices in the excluded column. *)
Definition other_benchmark_price : DataFrame cell :=
  mkFrame ["SPY"%string; "XLB"%string; "XLC"%string]
          [ (0%nat, [Some 50; Some 10; Some 20]);
            (1%nat, [Some 40; Some 11; Some 20]);
            (2%nat, [Some 45; Some 12; Some 21]);
            (3%nat, [Some 30; Some 12; Some 22]) ].

Definition other_benchmark_portfolio : MyPortfolio :=
  init other_benchmark_price "SPY" 2 2 (1 / 2).





(** What [plot_allocation] makes of one cell. *)
Definition allocation_cell (c : cell) : cell :=
  match c with
  | Some x => if Rlt_dec x 0 then Some 0 else Some x
  | None => Some 0
  end.

(** A judge whose first weight table holds a row above the tolerance. *)
Definition leveraged_judge : AssignmentJudge :=
  mkJudge
    (mkFrame ["SPY"%string; "XLB"%string; "XLC"%string]
             [(0%nat, [Some 0; Some 1; Some 1])],
     mkFrame ["Portfolio"%string] [(0%nat, [0])])
    (mkFrame ["SPY"%string; "XLB"%string; "XLC"%string]
             [(0%nat, [Some 0; Some 1; Some 1])],
     mkFrame ["Portfolio"%string] [(0%nat, [0])]).

(** The lines that the two threshold checks print, and the score of each,
    from the outcome of the position check and of the comparison. *)
Definition threshold_score (ok above : bool) : nat :=
  if ok && above then 15%nat else 0%nat.

Definition threshold_line (ok above : bool) (won lost : string) : string :=
  if ok then (if above then won else lost) else position_message.

(** A downloaded table that the judge can use: positive prices, distinct
    dates, a column SPY and at least one other column. *)
Definition usable_table (T : DataFrame cell) : Prop :=
  positive_prices T /\
  In "SPY"%string (columns T) /\
  NoDup (index T) /\
  exists c, In c (columns T) /\ c <> "SPY"%string.

(** The object that the judge builds for a table. *)
Definition judge_portfolio (T : DataFrame cell) : MyPortfolio :=
  init T "SPY" 50 20 (1 / 2).

(** The tokens of [--score] with every [all] taken out. *)
Definition without_all (toks : list string) : list string :=
  filter (fun t => negb (String.eqb "all" t)) toks.

(** A printed line that announces the total score. *)
Definition total_line (line : string) : bool :=
  String.prefix "==> total Score" line.

(** * Properties *)

(** ** Sums, minima and maxima of series *)

Lemma valid_map_Some (xs : list R) : valid (map Some xs) = xs.
Proof. induction xs as [|x xs IH]; simpl; [reflexivity | now rewrite IH]. Qed.

Lemma valid_repeat_NaN (n : nat) : valid (repeat NaN n) = [].
Proof. induction n as [|n IH]; simpl; auto. Qed.

Lemma nansum_map_Some (xs : list R) : nansum (map Some xs) = Some (rsum xs).
Proof. unfold nansum. now rewrite valid_map_Some. Qed.

Lemma rsum_app (l1 l2 : list R) : rsum (l1 ++ l2) = rsum l1 + rsum l2.
Proof. induction l1 as [|x l1 IH]; simpl; [lra | rewrite IH; lra]. Qed.

Lemma rsum_map_div (c : R) (l : list R) :
  rsum (map (fun x => x / c) l) = rsum l / c.
Proof.
  induction l as [|x l IH]; simpl.
  - unfold Rdiv. now rewrite Rmult_0_l.
  - rewrite IH. unfold Rdiv. ring.
Qed.

Lemma rsum_repeat (x : R) (n : nat) : rsum (repeat x n) = INR n * x.
Proof.
  induction n as [|n IH].
  - simpl. lra.
  - change (repeat x (S n)) with (x :: repeat x n).
    rewrite S_INR. simpl rsum. rewrite IH. lra.
Qed.

Lemma rsum_nonneg (l : list R) :
  (forall x, In x l -> 0 <= x) -> 0 <= rsum l.
Proof.
  induction l as [|x l IH]; simpl; intros H; [lra|].
  assert (0 <= x) by (apply H; auto).
  assert (0 <= rsum l) by (apply IH; intros; apply H; auto).
  lra.
Qed.

Lemma rsum_pos (l : list R) :
  l <> [] -> (forall x, In x l -> 0 < x) -> 0 < rsum l.
Proof.
  destruct l as [|x l]; [congruence|]. intros _ H. simpl.
  assert (0 < x) by (apply H; simpl; auto).
  assert (0 <= rsum l).
  { apply rsum_nonneg. intros y Hy. apply Rlt_le, H. simpl; auto. }
  lra.
Qed.

(** A sum of non-negative numbers is zero only when each of them is. *)
Lemma rsum_zero_all_zero (l : list R) :
  (forall x, In x l -> 0 <= x) -> rsum l = 0 -> forall x, In x l -> x = 0.
Proof.
  induction l as [|y l IH]; simpl; intros Hnn Hs x Hx; [contradiction|].
  assert (0 <= y) by (apply Hnn; auto).
  assert (0 <= rsum l) by (apply rsum_nonneg; intros; apply Hnn; auto).
  destruct Hx as [<-|Hx]; [lra|].
  apply IH; auto. lra.
Qed.

Lemma rmin_list_le_init (l : list R) (x : R) : rmin_list x l <= x.
Proof.
  revert x. induction l as [|y l IH]; simpl; intros x; [lra|].
  eapply Rle_trans; [apply IH | apply Rmin_l].
Qed.

Lemma rmin_list_le (l : list R) (x y : R) : In y l -> rmin_list x l <= y.
Proof.
  revert x. induction l as [|z l IH]; simpl; intros x H; [contradiction|].
  destruct H as [<-|H].
  - eapply Rle_trans; [apply rmin_list_le_init | apply Rmin_r].
  - now apply IH.
Qed.

Lemma rmax_list_ge_init (l : list R) (x : R) : x <= rmax_list x l.
Proof.
  revert x. induction l as [|y l IH]; simpl; intros x; [lra|].
  eapply Rle_trans; [apply Rmax_l | apply IH].
Qed.

Lemma rmax_list_ge (l : list R) (x y : R) : In y l -> y <= rmax_list x l.
Proof.
  revert x. induction l as [|z l IH]; simpl; intros x H; [contradiction|].
  destruct H as [<-|H].
  - eapply Rle_trans; [apply Rmax_r | apply rmax_list_ge_init].
  - now apply IH.
Qed.

(** The minimum and the maximum are reached. *)
Lemma rmin_list_in (l : list R) (x : R) : In (rmin_list x l) (x :: l).
Proof.
  revert x. induction l as [|y l IH]; simpl; intros x; [auto|].
  destruct (IH (Rmin x y)) as [H|H]; [|auto].
  rewrite <- H. unfold Rmin. destruct (Rle_dec x y); auto.
Qed.

Lemma rmax_list_in (l : list R) (x : R) : In (rmax_list x l) (x :: l).
Proof.
  revert x. induction l as [|y l IH]; simpl; intros x; [auto|].
  destruct (IH (Rmax x y)) as [H|H]; [|auto].
  rewrite <- H. unfold Rmax. destruct (Rle_dec x y); auto.
Qed.

(** ** The three steps of a steady-state date, on series without NaN *)

Lemma eps_pos : 0 < eps.
Proof. unfold eps. lra. Qed.

Lemma map_fdiv_num (a : R) (l : list R) :
  (forall v, In v l -> v <> 0) ->
  map (fun v => fdiv (Some a) v) (map Some l) = map Some (map (fun v => a / v) l).
Proof.
  induction l as [|v l IH]; intros H; [reflexivity|].
  cbn [map]. rewrite IH by (intros u Hu; apply H; now right).
  unfold fdiv. destruct (Req_EM_T v 0) as [E|_]; [|reflexivity].
  exfalso. apply (H v); [now left | exact E].
Qed.

Lemma map_fdiv_den (c : R) (l : list R) :
  c <> 0 ->
  map (fun x => fdiv x (Some c)) (map Some l) = map Some (map (fun x => x / c) l).
Proof.
  intros Hc. induction l as [|v l IH]; [reflexivity|].
  cbn [map]. rewrite IH. unfold fdiv.
  destruct (Req_EM_T c 0) as [E|_]; [contradiction | reflexivity].
Qed.

Lemma map_fdiv_zero (l : list cell) :
  map (fun x => fdiv x (Some 0)) l = repeat NaN (length l).
Proof.
  induction l as [|v l IH]; [reflexivity|].
  cbn [map length repeat]. rewrite IH. unfold fdiv.
  destruct v as [x|]; [|reflexivity].
  destruct (Req_EM_T 0 0) as [_|E]; [reflexivity | congruence].
Qed.

Lemma map_NaN_op (f : cell -> cell) (n : nat) :
  f NaN = NaN -> map f (repeat NaN n) = repeat NaN n.
Proof. intros H. induction n as [|n IH]; simpl; [reflexivity | now rewrite H, IH]. Qed.

Lemma inv_vol_pos (vs : list R) (x : R) :
  In x (map (fun v => 1 / Rmax v eps) vs) -> 0 < x.
Proof.
  rewrite in_map_iff. intros [v [<- _]].
  assert (0 < Rmax v eps) by (eapply Rlt_le_trans; [apply eps_pos | apply Rmax_r]).
  apply Rdiv_lt_0_compat; lra.
Qed.

Lemma inv_vol_sum_pos (vs : list R) :
  vs <> [] -> 0 < rsum (map (fun v => 1 / Rmax v eps) vs).
Proof.
  intros H. apply rsum_pos.
  - destruct vs; simpl; congruence.
  - apply inv_vol_pos.
Qed.

(** When the volatilities are numbers, so are the risk-parity weights: no
    division by zero takes place. *)
Lemma rp_weights_spec (vs : list R) :
  vs <> [] -> rp_weights_of (map Some vs) = map Some (rp_real vs).
Proof.
  intros Hne. unfold rp_weights_of, rp_real.
  assert (E1 : map (clip_lower eps) (map Some vs) = map Some (map (fun v => Rmax v eps) vs)).
  { rewrite !map_map. reflexivity. }
  rewrite E1.
  assert (E2 : map (fun v => fdiv (Some 1) v) (map Some (map (fun v => Rmax v eps) vs))
               = map Some (map (fun v => 1 / Rmax v eps) vs)).
  { rewrite map_fdiv_num.
    - f_equal. apply map_map.
    - intros v. rewrite in_map_iff. intros [u [<- _]].
      assert (0 < Rmax u eps) by (eapply Rlt_le_trans; [apply eps_pos | apply Rmax_r]).
      lra. }
  rewrite E2, nansum_map_Some.
  apply map_fdiv_den.
  pose proof (inv_vol_sum_pos vs Hne). lra.
Qed.

Lemma rp_real_sum (vs : list R) : vs <> [] -> rsum (rp_real vs) = 1.
Proof.
  intros Hne. unfold rp_real. rewrite rsum_map_div.
  pose proof (inv_vol_sum_pos vs Hne). field. lra.
Qed.

Lemma rp_real_length (vs : list R) : length (rp_real vs) = length vs.
Proof. unfold rp_real. now rewrite !length_map. Qed.

Lemma rp_weights_NaN (n : nat) : rp_weights_of (repeat NaN n) = repeat NaN n.
Proof.
  unfold rp_weights_of.
  rewrite (map_NaN_op (clip_lower eps)) by reflexivity.
  rewrite (map_NaN_op (fun v => fdiv (Some 1) v)) by reflexivity.
  apply map_NaN_op. reflexivity.
Qed.

Lemma minmax_real_length (ms : list R) : length (minmax_real ms) = length ms.
Proof.
  unfold minmax_real.
  rewrite <- (length_map (fun m => m * 252) ms).
  destruct (map (fun m => m * 252) ms) as [|s rest]; [reflexivity|].
  cbv zeta. now rewrite length_map.
Qed.

Lemma minmax_real_nonneg (ms : list R) (x : R) : In x (minmax_real ms) -> 0 <= x.
Proof.
  unfold minmax_real. destruct (map (fun m => m * 252) ms) as [|s rest]; [contradiction|].
  cbv zeta. rewrite in_map_iff. intros [y [<- Hy]].
  assert (Hlo : rmin_list s rest <= y).
  { destruct Hy as [<-|Hy]; [apply rmin_list_le_init | now apply rmin_list_le]. }
  assert (Hhi : rmin_list s rest <= rmax_list s rest).
  { eapply Rle_trans; [apply rmin_list_le_init | apply rmax_list_ge_init]. }
  pose proof eps_pos.
  apply Rmult_le_pos; [lra|]. apply Rlt_le, Rinv_0_lt_compat. lra.
Qed.

(** When the min-max scores sum to zero, each of them is zero: line 79
    then divides 0 by 0. *)
Lemma minmax_zero_sum (ms : list R) (x : R) :
  rsum (minmax_real ms) = 0 -> In x (minmax_real ms) -> x = 0.
Proof.
  intros Hs Hx. apply (rsum_zero_all_zero (minmax_real ms)); auto.
  apply minmax_real_nonneg.
Qed.

(** The momentum weights of the program: NaN for every asset when the
    min-max scores sum to zero, numbers otherwise. *)
Lemma momentum_weights_spec (ms : list R) :
  momentum_weights_of (map Some ms) =
  if Req_EM_T (rsum (minmax_real ms)) 0 then repeat NaN (length ms)
  else map Some (momentum_real ms).
Proof.
  unfold momentum_weights_of.
  assert (E1 : map (fun m => fmul m (Some 252)) (map Some ms)
               = map Some (map (fun m => m * 252) ms)).
  { rewrite !map_map. reflexivity. }
  rewrite E1. unfold nanmin, nanmax, momentum_real, minmax_real.
  rewrite valid_map_Some.
  destruct (map (fun m => m * 252) ms) as [|s rest] eqn:Es.
  - destruct ms; [|discriminate]. simpl.
    destruct (Req_EM_T 0 0); reflexivity.
  - cbv zeta.
    set (lo := rmin_list s rest). set (hi := rmax_list s rest).
    assert (Hd : hi - lo + eps <> 0).
    { assert (lo <= hi).
      { eapply Rle_trans; [apply rmin_list_le_init | apply rmax_list_ge_init]. }
      pose proof eps_pos. lra. }
    assert (E2 : map (fun x => fdiv (fsub x (Some lo)) (fadd (fsub (Some hi) (Some lo)) (Some eps)))
                     (map Some (s :: rest))
                 = map Some (map (fun x => (x - lo) / (hi - lo + eps)) (s :: rest))).
    { rewrite !map_map. apply map_ext. intros x. simpl.
      destruct (Req_EM_T (hi - lo + eps) 0); [contradiction | reflexivity]. }
    rewrite E2, nansum_map_Some.
    destruct (Req_EM_T (rsum (map (fun x => (x - lo) / (hi - lo + eps)) (s :: rest))) 0) as [E|E].
    + rewrite E, map_fdiv_zero. rewrite !length_map.
      rewrite <- (length_map (fun m => m * 252) ms), Es. reflexivity.
    + now apply map_fdiv_den.
Qed.

Lemma momentum_real_sum (ms : list R) :
  rsum (minmax_real ms) <> 0 -> rsum (momentum_real ms) = 1.
Proof. intros H. unfold momentum_real. rewrite rsum_map_div. now field. Qed.

Lemma momentum_real_length (ms : list R) : length (momentum_real ms) = length ms.
Proof. unfold momentum_real. now rewrite length_map, minmax_real_length. Qed.

Lemma momentum_weights_NaN (n : nat) : momentum_weights_of (repeat NaN n) = repeat NaN n.
Proof.
  unfold momentum_weights_of.
  rewrite (map_NaN_op (fun m => fmul m (Some 252))) by reflexivity.
  unfold nanmin, nanmax. rewrite valid_repeat_NaN.
  rewrite (map_NaN_op (fun s => fdiv (fsub s None) (fadd (fsub None None) (Some eps)))) by reflexivity.
  apply map_NaN_op. reflexivity.
Qed.

Lemma map2_length {A B C : Type} (f : A -> B -> C) (l1 : list A) (l2 : list B) :
  length l1 = length l2 -> length (map2 f l1 l2) = length l1.
Proof.
  revert l2. induction l1 as [|x l1 IH]; intros [|y l2] H; simpl in *; try congruence.
  f_equal. apply IH. congruence.
Qed.

Lemma rsum_map2_blend (w : R) (a b : list R) :
  length a = length b ->
  rsum (map2 (fun x y => (1 - w) * x + w * y) a b) = (1 - w) * rsum a + w * rsum b.
Proof.
  revert b. induction a as [|x a IH]; intros [|y b] H; simpl in *; try congruence; [lra|].
  rewrite IH by congruence. lra.
Qed.

Lemma blend_real_sum (w : R) (a b : list R) :
  length a = length b -> rsum a = 1 -> rsum b = 1 -> rsum (blend_real w a b) = 1.
Proof.
  intros Hl Ha Hb. unfold blend_real.
  rewrite rsum_map_div, rsum_map2_blend, Ha, Hb by assumption. field. lra.
Qed.

Lemma blend_real_length (w : R) (a b : list R) :
  length a = length b -> length (blend_real w a b) = length a.
Proof. intros H. unfold blend_real. rewrite length_map. now apply map2_length. Qed.

(** When both components are numbers that sum to 1, so is the blend: its
    renormalization divides by 1. *)
Lemma blend_spec (w : R) (a b : list R) :
  length a = length b -> rsum a = 1 -> rsum b = 1 ->
  blend w (map Some a) (map Some b) = map Some (blend_real w a b).
Proof.
  intros Hl Ha Hb. unfold blend, blend_real.
  assert (E : map2 fadd (map (fun x => fmul (Some (1 - w)) x) (map Some a))
                        (map (fun x => fmul (Some w) x) (map Some b))
              = map Some (map2 (fun x y => (1 - w) * x + w * y) a b)).
  { clear. revert b. induction a as [|x a IH]; intros [|y b]; simpl; try reflexivity.
    now rewrite IH. }
  rewrite E, nansum_map_Some. apply map_fdiv_den.
  rewrite rsum_map2_blend, Ha, Hb by assumption. lra.
Qed.

Lemma map2_fadd_NaN_l (n : nat) (l : list cell) :
  length l = n -> map2 fadd (repeat NaN n) l = repeat NaN n.
Proof.
  revert l. induction n as [|n IH]; intros [|x l] H; simpl in *; try congruence.
  f_equal. apply IH. congruence.
Qed.

Lemma map2_fadd_NaN_r (n : nat) (l : list cell) :
  length l = n -> map2 fadd l (repeat NaN n) = repeat NaN n.
Proof.
  revert l. induction n as [|n IH]; intros [|x l] H; simpl in *; try congruence.
  f_equal; [now destruct x | apply IH; congruence].
Qed.

Lemma nansum_repeat_NaN (n : nat) : nansum (repeat NaN n) = Some 0.
Proof. unfold nansum. now rewrite valid_repeat_NaN. Qed.

(** A component that is NaN makes the blend NaN, whatever the blend
    weight: [0 * NaN] is NaN. *)
Lemma blend_NaN_l (w : R) (n : nat) (l : list cell) :
  length l = n -> blend w (repeat NaN n) l = repeat NaN n.
Proof.
  intros H. unfold blend.
  rewrite (map_NaN_op (fun x => fmul (Some (1 - w)) x)) by reflexivity.
  rewrite map2_fadd_NaN_l by (now rewrite length_map).
  apply map_NaN_op. reflexivity.
Qed.

Lemma blend_NaN_r (w : R) (n : nat) (l : list cell) :
  length l = n -> blend w l (repeat NaN n) = repeat NaN n.
Proof.
  intros H. unfold blend.
  rewrite (map_NaN_op (fun x => fmul (Some w) x)) by reflexivity.
  rewrite map2_fadd_NaN_r by (now rewrite length_map).
  apply map_NaN_op. reflexivity.
Qed.

(** ** The weights of a steady-state date *)

Lemma std_cases (l : list R) :
  std l = if Nat.ltb (length l) 2 then NaN else Some (std_real l).
Proof. destruct l as [|x [|y l]]; reflexivity. Qed.

Lemma mean_cases (l : list R) :
  mean l = if Nat.eqb (length l) 0 then NaN else Some (rsum l / INR (length l)).
Proof. destruct l; reflexivity. Qed.

Lemma column_of_length (j : nat) (window : list (list R)) :
  length (column_of j window) = length window.
Proof. unfold column_of. apply length_map. Qed.

Lemma map_const_repeat {A B : Type} (b : B) (l : list A) :
  map (fun _ => b) l = repeat b (length l).
Proof. induction l as [|x l IH]; simpl; [reflexivity | now rewrite IH]. Qed.

Lemma frame_std_cases (n : nat) (window : list (list R)) :
  frame_std n window =
  if Nat.ltb (length window) 2 then repeat NaN n
  else map Some (map (fun j => std_real (column_of j window)) (seq 0 n)).
Proof.
  unfold frame_std.
  destruct (Nat.ltb (length window) 2) eqn:E.
  - transitivity (map (fun _ : nat => NaN) (seq 0 n)).
    + apply map_ext. intros j. now rewrite std_cases, column_of_length, E.
    + now rewrite map_const_repeat, length_seq.
  - rewrite map_map. apply map_ext. intros j.
    now rewrite std_cases, column_of_length, E.
Qed.

Lemma frame_mean_cases (n : nat) (window : list (list R)) :
  frame_mean n window =
  if Nat.eqb (length window) 0 then repeat NaN n
  else map Some (map (fun j => rsum (column_of j window) / INR (length window)) (seq 0 n)).
Proof.
  unfold frame_mean.
  destruct (Nat.eqb (length window) 0) eqn:E.
  - transitivity (map (fun _ : nat => NaN) (seq 0 n)).
    + apply map_ext. intros j. now rewrite mean_cases, column_of_length, E.
    + now rewrite map_const_repeat, length_seq.
  - rewrite map_map. apply map_ext. intros j.
    now rewrite mean_cases, column_of_length, E.
Qed.

Lemma rp_weights_at_cases (st : MyPortfolio) (i : nat) :
  length (assets st) <> O ->
  blank (length (assets st)) (rp_weights_of (volatilities_at st i)) \/
  full (length (assets st)) (rp_weights_of (volatilities_at st i)).
Proof.
  intros HN. unfold volatilities_at.
  set (win := iloc_slice (i - lookback st) i (asset_returns st)).
  rewrite frame_std_cases.
  destruct (Nat.ltb (length win) 2).
  - left. unfold blank.
    rewrite (map_NaN_op (fun s => fmul s (Some (sqrt 252)))) by reflexivity.
    apply rp_weights_NaN.
  - right.
    set (vs := map (fun j => std_real (column_of j win) * sqrt 252) (seq 0 (length (assets st)))).
    assert (E : map (fun s => fmul s (Some (sqrt 252)))
                    (map Some (map (fun j => std_real (column_of j win))
                                   (seq 0 (length (assets st)))))
                = map Some vs).
    { unfold vs. rewrite !map_map. reflexivity. }
    rewrite E.
    assert (Hl : length vs = length (assets st)).
    { unfold vs. now rewrite length_map, length_seq. }
    assert (Hne : vs <> []).
    { intros H0. rewrite H0 in Hl. simpl in Hl. congruence. }
    exists (rp_real vs). split; [now apply rp_weights_spec|].
    split; [now rewrite rp_real_length | now apply rp_real_sum].
Qed.

Lemma momentum_weights_at_cases (st : MyPortfolio) (i : nat) :
  blank (length (assets st)) (momentum_weights_of (mean_returns_at st i)) \/
  full (length (assets st)) (momentum_weights_of (mean_returns_at st i)).
Proof.
  unfold mean_returns_at. rewrite frame_mean_cases.
  destruct (Nat.eqb _ 0).
  - left. apply momentum_weights_NaN.
  - set (ms := map _ (seq 0 (length (assets st)))).
    assert (Hl : length ms = length (assets st)).
    { unfold ms. now rewrite length_map, length_seq. }
    rewrite momentum_weights_spec.
    destruct (Req_EM_T (rsum (minmax_real ms)) 0) as [E|E].
    + left. unfold blank. now rewrite Hl.
    + right. exists (momentum_real ms). split; [reflexivity|].
      split; [now rewrite momentum_real_length | now apply momentum_real_sum].
Qed.

Lemma blank_length (n : nat) (l : list cell) : blank n l -> length l = n.
Proof. intros ->. apply repeat_length. Qed.

Lemma full_length (n : nat) (l : list cell) : full n l -> length l = n.
Proof. intros [ws [-> [H _]]]. now rewrite length_map. Qed.

(** The weights computed for a steady-state date are NaN for every asset
    or numbers that sum to 1. *)
Lemma steady_weights_cases (st : MyPortfolio) (i : nat) :
  length (assets st) <> O ->
  blank (length (assets st)) (steady_weights st i) \/
  full (length (assets st)) (steady_weights st i).
Proof.
  intros HN. unfold steady_weights.
  destruct (rp_weights_at_cases st i HN) as [Hr|Hr];
    destruct (momentum_weights_at_cases st i) as [Hm|Hm].
  - left. rewrite Hr. apply blend_NaN_l. now apply blank_length.
  - left. rewrite Hr. apply blend_NaN_l. now apply full_length.
  - left. rewrite Hm. apply blend_NaN_r. now apply full_length.
  - right. destruct Hr as [a [-> [Hla Ha]]]. destruct Hm as [b [-> [Hlb Hb]]].
    exists (blend_real (momentum_weight st) a b).
    split; [apply blend_spec; congruence|].
    split; [rewrite blend_real_length; congruence | apply blend_real_sum; congruence].
Qed.

(** ** The rows written by the two loops *)

(** The two assignments of a loop turn, on a row that is still empty. *)
Lemma shape_spec (ex : string) (cs : list string) (vals : list cell) :
  fill (emask ex cs) (Some 0) (put (amask ex cs) vals (repeat NaN (length cs)))
  = shape ex cs vals.
Proof.
  revert vals. induction cs as [|c cs IH]; intros vals; [reflexivity|].
  cbn [emask amask map length repeat put fill shape] in *.
  rewrite (String.eqb_sym ex c).
  destruct (String.eqb c ex); cbn [negb].
  - cbn [fill]. now rewrite IH.
  - destruct vals as [|v vals]; cbn [fill]; now rewrite IH.
Qed.

Lemma shape_length (ex : string) (cs : list string) (vals : list cell) :
  length (shape ex cs vals) = length cs.
Proof.
  revert vals. induction cs as [|c cs IH]; intros vals; [reflexivity|].
  cbn [shape]. destruct (String.eqb c ex); [|destruct vals]; cbn [length]; now rewrite IH.
Qed.

(** Reading the asset columns of a written row gives the series back. *)
Lemma pick_shape (ex : string) (cs : list string) (vals : list cell) :
  length vals = length (pick (amask ex cs) cs) ->
  pick (amask ex cs) (shape ex cs vals) = vals.
Proof.
  revert vals. induction cs as [|c cs IH]; intros vals Hl; cbn [amask map pick shape] in *.
  - destruct vals; [reflexivity | discriminate].
  - destruct (String.eqb c ex); cbn [negb pick length] in *.
    + now apply IH.
    + destruct vals as [|v vals]; [discriminate|].
      cbn [pick]. f_equal. apply IH. now injection Hl.
Qed.

(** The excluded column of a written row holds 0. *)
Lemma shape_excluded (ex : string) (cs : list string) (vals : list cell) (k : nat) :
  nth_error cs k = Some ex -> nth_error (shape ex cs vals) k = Some (Some 0).
Proof.
  revert vals k. induction cs as [|c cs IH]; intros vals [|k] H; simpl in H; try discriminate.
  - injection H as ->. cbn [shape]. now rewrite String.eqb_refl.
  - cbn [shape]. destruct (String.eqb c ex); [|destruct vals]; simpl; now apply IH.
Qed.

(** The sum of a written row is the sum of its series. *)
Lemma valid_shape_sum (ex : string) (cs : list string) (vals : list cell) :
  length vals = length (pick (amask ex cs) cs) ->
  rsum (valid (shape ex cs vals)) = rsum (valid vals).
Proof.
  revert vals. induction cs as [|c cs IH]; intros vals Hl; cbn [amask map pick shape] in *.
  - destruct vals; [reflexivity | discriminate].
  - destruct (String.eqb c ex); cbn [negb pick length] in *.
    + cbn [valid rsum]. rewrite IH by assumption. lra.
    + destruct vals as [|v vals]; [discriminate|].
      injection Hl as Hl.
      destruct v; cbn [valid rsum]; rewrite IH by assumption; reflexivity.
Qed.

Lemma existsb_eqb_In (x : string) (l : list string) :
  In x l -> existsb (String.eqb x) l = true.
Proof.
  intros H. apply existsb_exists. exists x. split; [assumption | apply String.eqb_refl].
Qed.

Lemma loc_rows_compose {A : Type} (d : date) (f g : list A -> list A)
    (rs : list (date * list A)) :
  loc_rows d f (loc_rows d g rs) = loc_rows d (fun r => f (g r)) rs.
Proof.
  unfold loc_rows. rewrite map_map. apply map_ext. intros [d' r]. cbn [fst snd].
  destruct (Nat.eqb d' d) eqn:E; cbn [fst snd]; now rewrite E.
Qed.

Lemma list_as_map_nth {A : Type} (dflt : A) (l : list A) :
  l = map (fun j => nth j l dflt) (seq 0 (length l)).
Proof.
  induction l as [|x l IH]; [reflexivity|].
  cbn [length seq map nth]. f_equal.
  rewrite <- seq_shift, map_map. exact IH.
Qed.

Lemma map_as_seq {A B : Type} (F : A -> B) (dflt : A) (l : list A) :
  map F l = map (fun j => F (nth j l dflt)) (seq 0 (length l)).
Proof.
  rewrite <- (map_map (fun j => nth j l dflt) F). f_equal. apply list_as_map_nth.
Qed.

Section Loops.

Variable st : MyPortfolio.

(** The excluded column is a column of the prices, and no two rows of
    the prices have the same date. *)
Hypothesis Hex : In (exclude st) (columns (price st)).
Hypothesis Hnd : NoDup (index (price st)).

Lemma loop_turn (pw : DataFrame cell) (d : date) (vals : list cell) :
  columns pw = columns (price st) ->
  loc_set_col (loc_set_masked pw d (assets_mask st) vals) d (exclude st) (Some 0)
  = mkFrame (columns (price st)) (loc_rows d (write_row st vals) (rows pw)).
Proof.
  intros Hc. unfold loc_set_col, loc_set_masked. cbn [columns rows].
  rewrite Hc, (existsb_eqb_In _ _ Hex). cbn [columns rows].
  now rewrite loc_rows_compose.
Qed.

Lemma turn_on_row_fst guard G r i : fst (turn_on_row st guard G r i) = fst r.
Proof. unfold turn_on_row. now destruct (_ && _). Qed.

(** A loop over the positions [a .. a+n-1] rewrites the row of position
    [j] once, at turn [j], and only if that turn is in the loop. *)
Lemma loop_on_row (guard : nat -> bool) (G : nat -> list cell)
    (j : nat) (n a : nat) (r : date * list cell) :
  (forall i, guard i = true -> (i < len (price st))%nat) ->
  (j < len (price st))%nat ->
  fst r = nth j (index (price st)) O ->
  fold_left (turn_on_row st guard G) (seq a n) r =
  if Nat.leb a j && Nat.ltb j (a + n) && guard j
  then (fst r, write_row st (G j) (snd r)) else r.
Proof.
  intros Hg Hj. revert a r. induction n as [|n IH]; intros a r Hr.
  - cbn [seq fold_left].
    destruct (Nat.leb a j) eqn:E1; destruct (Nat.ltb j (a + 0)) eqn:E2; cbn [andb]; auto.
    apply Nat.leb_le in E1. apply Nat.ltb_lt in E2. lia.
  - cbn [seq fold_left]. rewrite IH by (now rewrite turn_on_row_fst).
    unfold turn_on_row.
    destruct (guard a && Nat.eqb (fst r) (nth a (index (price st)) O)) eqn:Ea.
    + apply andb_true_iff in Ea. destruct Ea as [Ega Ea].
      apply Nat.eqb_eq in Ea. rewrite Hr in Ea.
      assert (a = j).
      { symmetry. apply (proj1 (NoDup_nth (index (price st)) O) Hnd); auto.
        - unfold index. rewrite length_map. exact Hj.
        - unfold index. rewrite length_map. apply Hg, Ega. }
      subst a. cbn [fst snd].
      replace (Nat.leb (S j) j) with false by (symmetry; apply Nat.leb_gt; lia).
      rewrite Nat.leb_refl, Ega.
      replace (Nat.ltb j (j + S n)) with true by (symmetry; apply Nat.ltb_lt; lia).
      reflexivity.
    + destruct (Nat.eq_dec a j) as [->|Hne].
      * rewrite Hr, Nat.eqb_refl, andb_true_r in Ea. rewrite Ea.
        now rewrite !andb_false_r.
      * replace (Nat.leb (S a) j) with (Nat.leb a j).
        2:{ destruct (Nat.leb a j) eqn:E1; symmetry.
            - apply Nat.leb_le in E1. apply Nat.leb_le. lia.
            - apply Nat.leb_gt in E1. apply Nat.leb_gt. lia. }
        replace (S a + n)%nat with (a + S n)%nat by lia. reflexivity.
Qed.

Lemma in_table_lt (i : nat) : (in_table st) i = true -> (i < len (price st))%nat.
Proof. apply Nat.ltb_lt. Qed.

Lemma frame_eta {A : Type} (pw : DataFrame A) : mkFrame (columns pw) (rows pw) = pw.
Proof. now destruct pw. Qed.

Lemma warmup_step_rows (ew : R) (pw : DataFrame cell) (i : nat) :
  columns pw = columns (price st) ->
  warmup_step st ew pw i =
  mkFrame (columns (price st))
    (map (fun r => turn_on_row st (in_table st)
                     (fun _ => repeat (Some ew) (length (assets st))) r i)
         (rows pw)).
Proof.
  intros Hc. unfold warmup_step, turn_on_row, in_table.
  destruct (Nat.ltb i (len (price st))).
  - rewrite loop_turn by assumption. reflexivity.
  - cbn [andb]. rewrite map_id, <- Hc. symmetry. apply frame_eta.
Qed.

Lemma steady_step_rows (pw : DataFrame cell) (i : nat) :
  (i < len (price st))%nat ->
  columns pw = columns (price st) ->
  steady_step st pw i =
  mkFrame (columns (price st))
    (map (fun r => turn_on_row st (in_table st) (steady_weights st) r i) (rows pw)).
Proof.
  intros Hi Hc. unfold steady_step, turn_on_row, in_table.
  rewrite (proj2 (Nat.ltb_lt _ _) Hi), loop_turn by assumption. reflexivity.
Qed.

(** A loop of such turns on the table is a loop on each of its rows. *)
Lemma loop_on_table (step : DataFrame cell -> nat -> DataFrame cell)
    (G : nat -> list cell) (l : list nat) (pw : DataFrame cell) :
  (forall pw i, In i l -> columns pw = columns (price st) ->
     step pw i = mkFrame (columns (price st))
                   (map (fun r => turn_on_row st (in_table st) G r i) (rows pw))) ->
  columns pw = columns (price st) ->
  fold_left step l pw =
  mkFrame (columns (price st))
    (map (fun r => fold_left (turn_on_row st (in_table st) G) l r) (rows pw)).
Proof.
  revert pw. induction l as [|i l IH]; intros pw Hstep Hc.
  - cbn [fold_left]. rewrite map_id, <- Hc. symmetry. apply frame_eta.
  - cbn [fold_left]. rewrite (Hstep pw i) by (simpl; auto).
    rewrite IH.
    + cbn [rows]. now rewrite map_map.
    + intros pw' i' Hi'. apply Hstep. now right.
    + reflexivity.
Qed.

Lemma write_row_empty (vals : list cell) :
  write_row st vals (repeat NaN (length (columns (price st))))
  = shape (exclude st) (columns (price st)) vals.
Proof. apply shape_spec. Qed.

(** The table after the two loops, row by row. *)
Lemma raw_weights_rows (ew : R) :
  raw_weights st ew =
  mkFrame (columns (price st))
    (map (fun j => (nth j (index (price st)) O,
                    shape (exclude st) (columns (price st)) (raw_series st ew j)))
         (seq 0 (len (price st)))).
Proof.
  unfold raw_weights.
  set (k := Nat.max (lookback st) (momentum_window st)).
  rewrite (loop_on_table (warmup_step st ew)
             (fun _ => repeat (Some ew) (length (assets st)))).
  2:{ intros pw i _ Hc. now apply warmup_step_rows. }
  2:{ reflexivity. }
  rewrite (loop_on_table (steady_step st) (steady_weights st)).
  2:{ intros pw i Hi Hc. apply steady_step_rows; [|assumption].
      apply in_seq in Hi. lia. }
  2:{ reflexivity. }
  f_equal. cbn [rows empty_weights]. rewrite !map_map.
  assert (Hlen : length (index (price st)) = len (price st)).
  { unfold index, len. apply length_map. }
  rewrite (map_as_seq _ (O : date) (index (price st))), Hlen.
  apply map_ext_in. intros j Hj.
  apply in_seq in Hj.
  assert (Hin : (in_table st) j = true) by (apply Nat.ltb_lt; lia).
  rewrite (loop_on_row (in_table st) (fun _ => repeat (Some ew) (length (assets st))) j)
    by first [exact in_table_lt | reflexivity | lia].
  cbn [fst snd]. rewrite write_row_empty, Hin, andb_true_r.
  cbn [Nat.leb andb Nat.add].
  unfold raw_series. fold k.
  destruct (Nat.ltb j k) eqn:Ejk.
  - apply Nat.ltb_lt in Ejk.
    rewrite (loop_on_row (in_table st) (steady_weights st) j)
      by first [exact in_table_lt | reflexivity | lia].
    replace (Nat.leb k j) with false by (symmetry; apply Nat.leb_gt; lia).
    reflexivity.
  - apply Nat.ltb_ge in Ejk.
    rewrite (loop_on_row (in_table st) (steady_weights st) j)
      by first [exact in_table_lt | reflexivity | lia].
    replace (Nat.leb k j) with true by (symmetry; apply Nat.leb_le; lia).
    replace (Nat.ltb j (k + (len (price st) - k))) with true
      by (symmetry; apply Nat.ltb_lt; lia).
    rewrite Hin. cbn [andb fst snd]. now rewrite write_row_empty.
Qed.

End Loops.

(** ** Forward fill and zero fill of the written rows *)

Lemma ffill_row_nil (r : list cell) : ffill_row [] r = r.
Proof. induction r as [|c r IH]; cbn [ffill_row]; [reflexivity | now rewrite IH]. Qed.

Lemma ffill_row_length (u v : list cell) : length (ffill_row u v) = length v.
Proof.
  revert u. induction v as [|c v IH]; intros u; [reflexivity|].
  cbn [ffill_row]. destruct u; cbn [length]; now rewrite IH.
Qed.

Lemma ffill_row_full (u : list cell) (ws : list R) :
  ffill_row u (map Some ws) = map Some ws.
Proof.
  revert u. induction ws as [|w ws IH]; intros u; [reflexivity|].
  cbn [map ffill_row]. destruct u; cbn [ffill_cell]; now rewrite IH.
Qed.

Lemma ffill_row_blank (n : nat) (u : list cell) :
  length u = n -> ffill_row u (repeat NaN n) = u.
Proof.
  revert u. induction n as [|n IH]; intros [|p u] H; simpl in H; try discriminate; [reflexivity|].
  cbn [repeat ffill_row ffill_cell]. rewrite IH; [reflexivity | congruence].
Qed.

Lemma ffill_row_shape (ex : string) (cs : list string) (u v : list cell) :
  length u = length v ->
  ffill_row (shape ex cs u) (shape ex cs v) = shape ex cs (ffill_row u v).
Proof.
  revert u v. induction cs as [|c cs IH]; intros u v Hl; [reflexivity|].
  cbn [shape]. destruct (String.eqb c ex).
  - cbn [ffill_row ffill_cell]. now rewrite IH.
  - destruct u as [|p u]; destruct v as [|q v]; simpl in Hl; try discriminate.
    + cbn [ffill_row ffill_cell]. now rewrite IH.
    + cbn [ffill_row]. rewrite IH by congruence. reflexivity.
Qed.

Lemma ffill_from_shape (ex : string) (cs : list string) (n : nat)
    (vs : list (date * list cell)) (u : list cell) :
  (forall dv, In dv vs -> length (snd dv) = n) -> length u = n ->
  ffill_from (shape ex cs u) (map (shape_row ex cs) vs)
  = map (shape_row ex cs) (ffill_from u vs).
Proof.
  revert u. induction vs as [|[d v] vs IH]; intros u Hvs Hu; [reflexivity|].
  cbn [map ffill_from shape_row fst snd].
  assert (Hv : length v = n) by (apply (Hvs (d, v)); now left).
  rewrite ffill_row_shape by congruence.
  rewrite IH; [reflexivity | | ].
  - intros dv H. apply Hvs. now right.
  - now rewrite ffill_row_length.
Qed.

Lemma ffill_from_nil_shape (ex : string) (cs : list string) (n : nat)
    (vs : list (date * list cell)) :
  (forall dv, In dv vs -> length (snd dv) = n) ->
  ffill_from [] (map (shape_row ex cs) vs)
  = map (shape_row ex cs) (ffill_from [] vs).
Proof.
  destruct vs as [|[d v] vs]; intros Hvs; [reflexivity|].
  cbn [map ffill_from shape_row fst snd]. rewrite !ffill_row_nil.
  assert (Hv : length v = n) by (apply (Hvs (d, v)); now left).
  rewrite (ffill_from_shape ex cs n); [reflexivity | | exact Hv].
  intros dv H. apply Hvs. now right.
Qed.

Lemma ffill_from_index (u : list cell) (vs : list (date * list cell)) :
  map fst (ffill_from u vs) = map fst vs.
Proof.
  revert u. induction vs as [|[d v] vs IH]; intros u; [reflexivity|].
  cbn [ffill_from map fst]. now rewrite IH.
Qed.

(** A row of numbers is kept by the forward fill. *)
Lemma ffill_from_nth_full (u : list cell) (vs : list (date * list cell))
    (j : nat) (d : date) (ws : list R) :
  nth_error vs j = Some (d, map Some ws) ->
  nth_error (ffill_from u vs) j = Some (d, map Some ws).
Proof.
  revert u j. induction vs as [|[d' v] vs IH]; intros u [|j] H; simpl in H; try discriminate.
  - injection H as -> ->. cbn [ffill_from nth_error]. now rewrite ffill_row_full.
  - cbn [ffill_from nth_error]. now apply IH.
Qed.

(** A row of NaN takes the row above it. *)
Lemma ffill_from_nth_blank (n : nat) (u : list cell) (vs : list (date * list cell))
    (j : nat) (d d' : date) (w : list cell) :
  nth_error vs (S j) = Some (d, repeat NaN n) ->
  nth_error (ffill_from u vs) j = Some (d', w) ->
  length w = n ->
  nth_error (ffill_from u vs) (S j) = Some (d, w).
Proof.
  revert u j. induction vs as [|[d0 v0] vs IH]; intros u j H1 H2 Hw; [discriminate|].
  destruct j as [|j].
  - cbn [ffill_from nth_error] in *. injection H2 as <- <-.
    destruct vs as [|[d1 v1] vs]; [discriminate|].
    cbn [nth_error] in H1. injection H1 as -> ->.
    cbn [ffill_from nth_error]. now rewrite ffill_row_blank.
  - cbn [ffill_from nth_error] in H2 |- *. cbn [nth_error] in H1.
    now apply (IH (ffill_row u v0) j).
Qed.

(** The forward fill of rows that are each blank or full: once a full row
    has been met, every row is full. *)
Lemma ffill_from_full (n : nat) (u : list cell) (vs : list (date * list cell)) :
  full n u ->
  (forall dv, In dv vs -> blank n (snd dv) \/ full n (snd dv)) ->
  forall dv, In dv (ffill_from u vs) -> full n (snd dv).
Proof.
  revert u. induction vs as [|[d v] vs IH]; intros u Hu Hvs dv Hin; [contradiction|].
  cbn [ffill_from] in Hin.
  assert (Hf : full n (ffill_row u v)).
  { destruct (Hvs (d, v)) as [Hb|Hf]; [now left| |].
    - cbn [snd] in Hb. rewrite Hb, ffill_row_blank; [exact Hu | now apply full_length].
    - cbn [snd] in Hf. destruct Hf as [ws [-> Hw]]. rewrite ffill_row_full.
      now exists ws. }
  destruct Hin as [<-|Hin]; [exact Hf|].
  apply (IH (ffill_row u v)); auto. intros dv' H. apply Hvs. now right.
Qed.

Lemma ffill_from_blank_or_full (n : nat) (u : list cell) (vs : list (date * list cell)) :
  blank n u \/ full n u ->
  (forall dv, In dv vs -> blank n (snd dv) \/ full n (snd dv)) ->
  forall dv, In dv (ffill_from u vs) -> blank n (snd dv) \/ full n (snd dv).
Proof.
  revert u. induction vs as [|[d v] vs IH]; intros u Hu Hvs dv Hin; [contradiction|].
  cbn [ffill_from] in Hin.
  assert (Hf : blank n (ffill_row u v) \/ full n (ffill_row u v)).
  { destruct (Hvs (d, v)) as [Hb|Hf]; [now left| |].
    - cbn [snd] in Hb. rewrite Hb, ffill_row_blank; [exact Hu|].
      destruct Hu; [now apply blank_length | now apply full_length].
    - cbn [snd] in Hf. destruct Hf as [ws [-> Hw]]. rewrite ffill_row_full.
      right. now exists ws. }
  destruct Hin as [<-|Hin]; [exact Hf|].
  apply (IH (ffill_row u v)); auto. intros dv' H. apply Hvs. now right.
Qed.

(** ** The weight table *)

Lemma zero_fill_shape (ex : string) (cs : list string) (v : list cell) :
  length v = length (pick (amask ex cs) cs) ->
  map zero_fill (shape ex cs v) = shape ex cs (map zero_fill v).
Proof.
  revert v. induction cs as [|c cs IH]; intros v Hl; cbn [amask map pick shape] in *.
  - reflexivity.
  - destruct (String.eqb c ex); cbn [negb pick length] in *.
    + cbn [map]. now rewrite IH.
    + destruct v as [|x v]; [discriminate|].
      cbn [map]. rewrite IH; [reflexivity | now injection Hl].
Qed.

Lemma zero_fill_full (ws : list R) : map zero_fill (map Some ws) = map Some ws.
Proof. rewrite map_map. reflexivity. Qed.

Lemma zero_fill_blank (n : nat) : map zero_fill (repeat NaN n) = map Some (repeat 0 n).
Proof. induction n as [|n IH]; simpl; [reflexivity | now rewrite IH]. Qed.

Lemma raw_series_cases (st : MyPortfolio) (j : nat) :
  length (assets st) <> O ->
  blank (length (assets st)) (raw_series st (1 / INR (length (assets st))) j) \/
  full (length (assets st)) (raw_series st (1 / INR (length (assets st))) j).
Proof.
  intros HN. unfold raw_series.
  destruct (Nat.ltb j _); [|now apply steady_weights_cases].
  right. exists (repeat (1 / INR (length (assets st))) (length (assets st))).
  split; [|split].
  - clear. induction (length (assets st)) at 2 4; simpl; [reflexivity | now f_equal].
  - apply repeat_length.
  - rewrite rsum_repeat. field. now apply not_0_INR.
Qed.

Lemma raw_series_length (st : MyPortfolio) (j : nat) :
  length (assets st) <> O ->
  length (raw_series st (1 / INR (length (assets st))) j) = length (assets st).
Proof.
  intros HN. destruct (raw_series_cases st j HN);
    [now apply blank_length | now apply full_length].
Qed.

Lemma dated_series_cases (st : MyPortfolio) (dv : date * list cell) :
  length (assets st) <> O ->
  In dv (dated_series st (1 / INR (length (assets st)))) ->
  blank (length (assets st)) (snd dv) \/ full (length (assets st)) (snd dv).
Proof.
  intros HN. unfold dated_series. rewrite in_map_iff. intros [j [<- _]].
  now apply raw_series_cases.
Qed.

Lemma ffilled_series_length (st : MyPortfolio) (dv : date * list cell) :
  length (assets st) <> O ->
  In dv (ffill_from [] (dated_series st (1 / INR (length (assets st))))) ->
  length (snd dv) = length (assets st).
Proof.
  intros HN Hin.
  assert (H : forall u vs, (forall x, In x vs -> length (snd x) = length (assets st)) ->
              forall x, In x (ffill_from u vs) -> length (snd x) = length (assets st)).
  { clear. intros u vs. revert u. induction vs as [|[d v] vs IH]; intros u Hvs x Hx;
      [contradiction|].
    cbn [ffill_from] in Hx. destruct Hx as [<-|Hx].
    - cbn [snd]. rewrite ffill_row_length. apply (Hvs (d, v)). now left.
    - apply (IH (ffill_row u v)); auto. intros y Hy. apply Hvs. now right. }
  apply (H [] _) in Hin; auto.
  intros x Hx. destruct (dated_series_cases st x HN Hx);
    [now apply blank_length | now apply full_length].
Qed.

(** [calculate_weights] returns for a table with an asset, and stores
    [weights_table]. *)
Lemma calculate_weights_table (st : MyPortfolio) :
  In (exclude st) (columns (price st)) ->
  NoDup (index (price st)) ->
  length (assets st) <> O ->
  calculate_weights st =
  Some (mkPortfolio (price st) (returns st) (exclude st) (lookback st)
                    (momentum_window st) (momentum_weight st)
                    (Some (weights_table st)) (portfolio_returns st)).
Proof.
  intros Hex Hnd HN. unfold calculate_weights.
  destruct (Nat.eqb (length (assets st)) 0) eqn:E;
    [apply Nat.eqb_eq in E; contradiction|].
  do 2 f_equal. rewrite raw_weights_rows by assumption.
  unfold weights_table, final_series, fillna_inplace, ffill. cbn [columns rows].
  f_equal.
  change (map (fun j => (nth j (index (price st)) O,
                         shape (exclude st) (columns (price st))
                               (raw_series st (1 / INR (length (assets st))) j)))
              (seq 0 (len (price st))))
    with (map (fun j => shape_row (exclude st) (columns (price st))
                          (nth j (index (price st)) O,
                           raw_series st (1 / INR (length (assets st))) j))
              (seq 0 (len (price st)))).
  rewrite <- (map_map (fun j => (nth j (index (price st)) O,
                                 raw_series st (1 / INR (length (assets st))) j))
                      (shape_row (exclude st) (columns (price st)))).
  fold (dated_series st (1 / INR (length (assets st)))).
  rewrite (ffill_from_nil_shape _ _ (length (assets st))).
  2:{ intros dv Hdv. destruct (dated_series_cases st dv HN Hdv);
        [now apply blank_length | now apply full_length]. }
  rewrite !map_map. f_equal. apply map_ext_in. intros dv Hdv.
  unfold shape_row. cbn [fst snd]. f_equal.
  apply (zero_fill_shape (exclude st) (columns (price st))).
  now apply ffilled_series_length.
Qed.

Lemma nth_error_map_seq {A : Type} (f : nat -> A) (n j : nat) :
  (j < n)%nat -> nth_error (map f (seq 0 n)) j = Some (f j).
Proof.
  intros H. rewrite nth_error_map, nth_error_seq.
  destruct (Nat.ltb j n) eqn:E; [reflexivity|].
  apply Nat.ltb_ge in E. lia.
Qed.

Lemma dated_series_nth (st : MyPortfolio) (ew : R) (j : nat) :
  (j < len (price st))%nat ->
  nth_error (dated_series st ew) j
  = Some (nth j (index (price st)) O, raw_series st ew j).
Proof. intros H. unfold dated_series. now rewrite nth_error_map_seq. Qed.

Lemma final_series_index (st : MyPortfolio) :
  map fst (final_series st) = index (price st).
Proof.
  unfold final_series, dated_series. rewrite map_map. cbn [fst].
  rewrite ffill_from_index, map_map. cbn [fst].
  assert (Hlen : length (index (price st)) = len (price st)).
  { unfold index, len. apply length_map. }
  rewrite <- Hlen. symmetry. apply (list_as_map_nth (O : date)).
Qed.

(** The rows of the weight table over the final series. *)
Lemma weights_table_nth (st : MyPortfolio) (j : nat) (d : date) (v : list cell) :
  nth_error (final_series st) j = Some (d, v) ->
  nth_error (rows (weights_table st)) j
  = Some (d, shape (exclude st) (columns (price st)) v).
Proof.
  intros H. unfold weights_table. cbn [rows].
  rewrite nth_error_map, H. reflexivity.
Qed.

Lemma weights_table_row (st : MyPortfolio) (d : date) (row : list cell) :
  In (d, row) (rows (weights_table st)) ->
  exists v, In (d, v) (final_series st) /\
            row = shape (exclude st) (columns (price st)) v.
Proof.
  unfold weights_table. cbn [rows]. rewrite in_map_iff.
  intros [[d' v] [E Hin]]. unfold shape_row in E. cbn [fst snd] in E.
  injection E as -> <-. now exists v.
Qed.

(** A date where the loops wrote numbers keeps them in the final table. *)
Lemma final_series_nth_full (st : MyPortfolio) (j : nat) (ws : list R) :
  (j < len (price st))%nat ->
  raw_series st (1 / INR (length (assets st))) j = map Some ws ->
  nth_error (final_series st) j = Some (nth j (index (price st)) O, map Some ws).
Proof.
  intros Hj Hraw. unfold final_series. rewrite nth_error_map.
  rewrite (ffill_from_nth_full [] _ j (nth j (index (price st)) O) ws).
  - cbn [option_map fst snd]. now rewrite zero_fill_full.
  - now rewrite dated_series_nth, Hraw.
Qed.

(** Every date of the final table holds numbers that sum to 1, or zeros. *)
Lemma final_series_cases (st : MyPortfolio) (dv : date * list cell) :
  length (assets st) <> O ->
  In dv (final_series st) ->
  full (length (assets st)) (snd dv) \/
  snd dv = map Some (repeat 0 (length (assets st))).
Proof.
  intros HN. unfold final_series. rewrite in_map_iff.
  intros [[d v] [<- Hin]]. cbn [fst snd].
  assert (H : blank (length (assets st)) v \/ full (length (assets st)) v).
  { remember (dated_series st (1 / INR (length (assets st)))) as vs eqn:Evs.
    assert (Hvs : forall x, In x vs ->
              blank (length (assets st)) (snd x) \/ full (length (assets st)) (snd x)).
    { intros x Hx. subst vs. now apply dated_series_cases. }
    clear Evs. destruct vs as [|[d0 v0] vs]; [contradiction|].
    cbn [ffill_from] in Hin. rewrite ffill_row_nil in Hin.
    destruct Hin as [E|Hin].
    - injection E as <- <-. apply (Hvs (d0, v0)). now left.
    - apply (ffill_from_blank_or_full (length (assets st)) v0 vs) in Hin; auto.
      + apply (Hvs (d0, v0)). now left.
      + intros x Hx. apply Hvs. now right. }
  destruct H as [Hb|[ws [-> Hw]]].
  - right. rewrite Hb. apply zero_fill_blank.
  - left. rewrite zero_fill_full. now exists ws.
Qed.

(** With a warm-up of at least one date, every date of the final table
    holds numbers that sum to 1. *)
Lemma final_series_full (st : MyPortfolio) (dv : date * list cell) :
  length (assets st) <> O ->
  (1 <= Nat.max (lookback st) (momentum_window st))%nat ->
  In dv (final_series st) ->
  full (length (assets st)) (snd dv).
Proof.
  intros HN HK. unfold final_series. rewrite in_map_iff.
  intros [[d v] [<- Hin]]. cbn [fst snd].
  assert (H : full (length (assets st)) v).
  { assert (Hvs : forall x, In x (dated_series st (1 / INR (length (assets st)))) ->
              blank (length (assets st)) (snd x) \/ full (length (assets st)) (snd x)).
    { intros x Hx. now apply dated_series_cases. }
    assert (H0 : forall x, nth_error (dated_series st (1 / INR (length (assets st)))) 0
                           = Some x -> full (length (assets st)) (snd x)).
    { intros x Hx. destruct (Nat.eq_dec (len (price st)) 0) as [E|E].
      - unfold dated_series in Hx. rewrite E in Hx. discriminate.
      - rewrite dated_series_nth in Hx by lia. injection Hx as <-. cbn [snd].
        destruct (raw_series_cases st 0 HN) as [Hb|Hf]; [|exact Hf].
        exfalso. unfold raw_series in Hb.
        replace (Nat.ltb 0 (Nat.max (lookback st) (momentum_window st))) with true in Hb
          by (symmetry; apply Nat.ltb_lt; lia).
        unfold blank in Hb. destruct (length (assets st)); [congruence | discriminate]. }
    destruct (dated_series st (1 / INR (length (assets st)))) as [|[d0 v0] vs];
      [contradiction|].
    cbn [ffill_from] in Hin. rewrite ffill_row_nil in Hin.
    specialize (H0 (d0, v0) eq_refl). cbn [snd] in H0.
    destruct Hin as [E|Hin].
    - now injection E as <- <-.
    - apply (ffill_from_full (length (assets st)) v0 vs) in Hin; auto.
      intros x Hx. apply Hvs. now right. }
  destruct H as [ws [-> Hw]]. rewrite zero_fill_full. now exists ws.
Qed.

(** * The claims *)

(** ** A small run: three columns, four dates, both windows of length 2 *)

Lemma example_excluded :
  In (exclude example_portfolio) (columns (price example_portfolio)).
Proof. simpl. auto. Defined.

Lemma example_dates : NoDup (index (price example_portfolio)).
Proof.
  simpl. repeat constructor; simpl; intuition discriminate.
Defined.

Lemma example_assets : length (assets example_portfolio) <> O.
Proof. simpl. discriminate. Defined.

(** ** C3: the warm-up rows *)

(** C3.  For every date position [i] below [max(L, M)] and inside the
    table, [calculate_weights] returns and the row of that date holds the
    equal weight [1/N] under each of the [N] non-excluded columns and 0
    under the excluded column. *)
Theorem warmup_rows_equal_weight (st : MyPortfolio) (i : nat) :
  In (exclude st) (columns (price st)) ->
  NoDup (index (price st)) ->
  length (assets st) <> O ->
  (i < Nat.max (lookback st) (momentum_window st))%nat ->
  (i < len (price st))%nat ->
  exists st' pw row,
    calculate_weights st = Some st' /\
    portfolio_weights st' = Some pw /\
    nth_error (rows pw) i = Some (nth i (index (price st)) O, row) /\
    pick (assets_mask st) row
      = repeat (Some (1 / INR (length (assets st)))) (length (assets st)) /\
    (forall k, nth_error (columns pw) k = Some (exclude st) ->
               nth_error row k = Some (Some 0)).
Proof.
  intros Hex Hnd HN HiK Hin.
  eexists. exists (weights_table st).
  exists (shape (exclude st) (columns (price st))
                (repeat (Some (1 / INR (length (assets st)))) (length (assets st)))).
  split; [now apply calculate_weights_table|].
  split; [reflexivity|].
  split; [|split].
  - apply weights_table_nth. rewrite <- map_repeat.
    apply final_series_nth_full; [assumption|].
    unfold raw_series.
    replace (Nat.ltb i (Nat.max (lookback st) (momentum_window st))) with true
      by (symmetry; now apply Nat.ltb_lt).
    now rewrite map_repeat.
  - apply (pick_shape (exclude st) (columns (price st))). apply repeat_length.
  - intros k Hk. now apply shape_excluded.
Qed.

Lemma warmup_rows_equal_weight_witness :
  exists st' pw row,
    calculate_weights example_portfolio = Some st' /\
    portfolio_weights st' = Some pw /\
    nth_error (rows pw) 1 = Some (nth 1 (index (price example_portfolio)) O, row) /\
    pick (assets_mask example_portfolio) row
      = repeat (Some (1 / INR (length (assets example_portfolio))))
               (length (assets example_portfolio)) /\
    (forall k, nth_error (columns pw) k = Some (exclude example_portfolio) ->
               nth_error row k = Some (Some 0)).
Proof.
  apply (warmup_rows_equal_weight example_portfolio 1).
  - exact example_excluded.
  - exact example_dates.
  - exact example_assets.
  - simpl. lia.
  - unfold len. simpl. lia.
Defined.

(** ** Rounding: the equal weight of eleven assets in binary64 *)

(** The program's own run has eleven non-excluded columns.  The float
    [1.0 / 11] is [6550690367084358 / 2^56], a little above one eleventh. *)
Lemma equal_weight_eleven :
  Binary64.equal_weight 11 = Some (S754_finite false 6550690367084358 (-56)).
Proof. vm_compute. reflexivity. Qed.

(** The eleven cells of a warm-up row total [1 + 2^-55]. *)
Lemma warmup_weights_eleven_total :
  exists ws,
    Binary64.warmup_weights 11 = Some ws /\
    length ws = 11%nat /\
    rsum (map Binary64.to_R ws) = 1 + / 2 ^ 55.
Proof.
  unfold Binary64.warmup_weights. rewrite equal_weight_eleven.
  eexists. split; [reflexivity|]. split; [apply repeat_length|].
  rewrite map_repeat, rsum_repeat.
  unfold Binary64.to_R.
  replace (2 ^ 56)%Z with 72057594037927936%Z by reflexivity.
  replace (2 ^ 55) with 36028797018963968 by (simpl; lra).
  simpl INR. lra.
Qed.

(** ** C1: the rows of the weight table *)

(** C1, amended.  When [max(L, M)] is at least 1, [calculate_weights]
    returns a table with the dates of the prices in which every row holds,
    under the non-excluded columns, numbers that sum to 1 within the
    tolerance 0.01 of the position check, and 0 under the excluded
    column. *)
Theorem weight_rows_sum_near_one (st : MyPortfolio) :
  In (exclude st) (columns (price st)) ->
  NoDup (index (price st)) ->
  length (assets st) <> O ->
  (1 <= Nat.max (lookback st) (momentum_window st))%nat ->
  exists st' pw,
    calculate_weights st = Some st' /\
    portfolio_weights st' = Some pw /\
    index pw = index (price st) /\
    rows_sum_near_one st pw.
Proof.
  intros Hex Hnd HN HK.
  eexists. exists (weights_table st).
  split; [now apply calculate_weights_table|].
  split; [reflexivity|].
  split.
  - unfold index, weights_table. cbn [rows]. rewrite map_map.
    unfold shape_row. cbn [fst]. apply final_series_index.
  - intros d row Hrow.
    destruct (weights_table_row st d row Hrow) as [v [Hv ->]].
    destruct (final_series_full st (d, v) HN HK Hv) as [ws [E [Hl Hs]]].
    cbn [snd] in E. subst v. split.
    + exists ws. split.
      * apply (pick_shape (exclude st) (columns (price st))).
        rewrite length_map. exact Hl.
      * rewrite Hs, Rminus_diag, Rabs_R0. lra.
    + intros k Hk. now apply shape_excluded.
Qed.

Lemma weight_rows_sum_near_one_witness :
  exists st' pw,
    calculate_weights example_portfolio = Some st' /\
    portfolio_weights st' = Some pw /\
    index pw = index (price example_portfolio) /\
    rows_sum_near_one example_portfolio pw.
Proof.
  apply (weight_rows_sum_near_one example_portfolio).
  - exact example_excluded.
  - exact example_dates.
  - exact example_assets.
  - simpl. lia.
Defined.

(** ** Dates whose computed weights are NaN *)

Lemma iloc_slice_length {A : Type} (i w : nat) (l : list A) :
  (length (iloc_slice (i - w) i l) <= w)%nat.
Proof. unfold iloc_slice. rewrite length_skipn, length_firstn. lia. Qed.

(** A lookback window of fewer than two dates has no standard deviation:
    the weights computed for the date are NaN. *)
Lemma short_lookback_NaN (st : MyPortfolio) (i : nat) :
  length (assets st) <> O ->
  (lookback st < 2)%nat ->
  steady_weights st i = repeat NaN (length (assets st)).
Proof.
  intros HN HL. unfold steady_weights.
  assert (E : rp_weights_of (volatilities_at st i) = repeat NaN (length (assets st))).
  { unfold volatilities_at. rewrite frame_std_cases.
    pose proof (iloc_slice_length i (lookback st) (asset_returns st)) as Hl.
    replace (Nat.ltb (length (iloc_slice (i - lookback st) i (asset_returns st))) 2)
      with true by (symmetry; apply Nat.ltb_lt; lia).
    rewrite (map_NaN_op (fun s => fmul s (Some (sqrt 252)))) by reflexivity.
    apply rp_weights_NaN. }
  rewrite E. apply blend_NaN_l.
  destruct (momentum_weights_at_cases st i);
    [now apply blank_length | now apply full_length].
Qed.

Lemma rsum_all_zero (l : list R) : (forall x, In x l -> x = 0) -> rsum l = 0.
Proof.
  induction l as [|x l IH]; intros H; simpl; [reflexivity|].
  rewrite (H x) by (now left). rewrite IH; [lra|]. intros y Hy. apply H. now right.
Qed.

(** Equal momentum scores: the min-max scores are all 0 and so is their
    sum, the divisor of line 79. *)
Lemma minmax_real_all_equal (ms : list R) :
  (forall x y, In x ms -> In y ms -> x = y) -> rsum (minmax_real ms) = 0.
Proof.
  intros Heq. apply rsum_all_zero. intros z. unfold minmax_real.
  destruct (map (fun m => m * 252) ms) as [|s rest] eqn:Es; [contradiction|].
  cbv zeta. rewrite in_map_iff. intros [x [<- Hx]].
  pose proof (rmin_list_in rest s) as Hlo.
  rewrite <- Es in Hx, Hlo.
  apply in_map_iff in Hx. destruct Hx as [m1 [<- H1]].
  apply in_map_iff in Hlo. destruct Hlo as [m2 [E2 H2]].
  rewrite <- E2, (Heq m1 m2 H1 H2).
  unfold Rdiv. ring.
Qed.

Lemma equal_scores_momentum_NaN (ms : list R) :
  (forall x y, In x ms -> In y ms -> x = y) ->
  momentum_weights_of (map Some ms) = repeat NaN (length ms).
Proof.
  intros Heq. rewrite momentum_weights_spec.
  destruct (Req_EM_T (rsum (minmax_real ms)) 0) as [_|H]; [reflexivity|].
  exfalso. apply H. now apply minmax_real_all_equal.
Qed.

(** When the trailing mean returns of all assets are equal at a date, the
    weights computed for that date are NaN for every asset. *)
Lemma equal_scores_steady_NaN (st : MyPortfolio) (i : nat) (ms : list R) :
  length (assets st) <> O ->
  mean_returns_at st i = map Some ms ->
  (forall x y, In x ms -> In y ms -> x = y) ->
  momentum_weights_of (mean_returns_at st i) = repeat NaN (length (assets st)) /\
  steady_weights st i = repeat NaN (length (assets st)).
Proof.
  intros HN Hms Heq.
  assert (Hl : length ms = length (assets st)).
  { rewrite <- (length_map Some ms), <- Hms. unfold mean_returns_at, frame_mean.
    now rewrite length_map, length_seq. }
  assert (E : momentum_weights_of (mean_returns_at st i) = repeat NaN (length (assets st))).
  { rewrite Hms, <- Hl. now apply equal_scores_momentum_NaN. }
  split; [exact E|].
  unfold steady_weights. rewrite E. apply blend_NaN_r.
  destruct (rp_weights_at_cases st i HN);
    [now apply blank_length | now apply full_length].
Qed.

Lemma ffill_from_first (vs : list (date * list cell)) (d : date) (v : list cell) :
  nth_error vs 0 = Some (d, v) -> nth_error (ffill_from [] vs) 0 = Some (d, v).
Proof.
  destruct vs as [|[d0 v0] vs]; [discriminate|].
  cbn [nth_error ffill_from]. rewrite ffill_row_nil. auto.
Qed.

(** A date where the loops wrote NaN takes the weights of the date above. *)
Lemma final_series_nth_blank (st : MyPortfolio) (j : nat) (d : date) (v : list cell) :
  length (assets st) <> O ->
  (S j < len (price st))%nat ->
  raw_series st (1 / INR (length (assets st))) (S j) = repeat NaN (length (assets st)) ->
  nth_error (final_series st) j = Some (d, v) ->
  nth_error (final_series st) (S j) = Some (nth (S j) (index (price st)) O, v).
Proof.
  intros HN Hj Hraw Hprev. unfold final_series in *.
  rewrite nth_error_map in Hprev |- *.
  destruct (nth_error (ffill_from [] (dated_series st (1 / INR (length (assets st))))) j)
    as [[d' u]|] eqn:Eu; [|discriminate].
  cbn [option_map fst snd] in Hprev. injection Hprev as -> <-.
  rewrite (ffill_from_nth_blank (length (assets st)) [] _ j
             (nth (S j) (index (price st)) O) d u).
  - reflexivity.
  - now rewrite dated_series_nth, Hraw.
  - exact Eu.
  - apply (ffilled_series_length st (d, u) HN). eapply nth_error_In. exact Eu.
Qed.

(** ** C2: equal momentum scores *)

Lemma pct_cell_same (a : R) : a <> 0 -> fillna 0 (pct_cell (Some a) (Some a)) = 0.
Proof.
  intros Ha. unfold pct_cell, fdiv.
  destruct (Req_EM_T a 0) as [E|_]; [contradiction|]. simpl. now field.
Qed.

Lemma flat_means : mean_returns_at flat_portfolio 2 = map Some [0; 0].
Proof.
  unfold mean_returns_at. rewrite frame_mean_cases.
  cbn -[INR Rdiv Rminus Rplus].
  rewrite !pct_cell_same by lra.
  repeat f_equal; simpl; lra.
Qed.

(** C2 at the failing input.  With equal momentum scores the floor keeps
    the min-max divisor away from zero, but the min-max scores are all 0
    and line 79 divides them by their sum: the momentum weights and the
    weights of the date are NaN for every asset, and the stored row is the
    copy of the row above that the forward fill makes. *)
Theorem equal_scores_weights_are_NaN :
  momentum_weights_of (mean_returns_at flat_portfolio 2) = [NaN; NaN] /\
  steady_weights flat_portfolio 2 = [NaN; NaN] /\
  exists st',
    calculate_weights flat_portfolio = Some st' /\
    portfolio_weights st' = Some (weights_table flat_portfolio) /\
    nth_error (rows (weights_table flat_portfolio)) 1
      = Some (1%nat, [Some 0; Some (1 / 2); Some (1 / 2)]) /\
    nth_error (rows (weights_table flat_portfolio)) 2
      = Some (2%nat, [Some 0; Some (1 / 2); Some (1 / 2)]).
Proof.
  assert (HN : length (assets flat_portfolio) <> O) by (simpl; discriminate).
  assert (Hex : In (exclude flat_portfolio) (columns (price flat_portfolio)))
    by (simpl; auto).
  assert (Hnd : NoDup (index (price flat_portfolio))).
  { simpl. repeat constructor; simpl; intuition discriminate. }
  destruct (equal_scores_steady_NaN flat_portfolio 2 [0; 0] HN flat_means) as [Hm Hs].
  { intros x y [<-|[<-|[]]] [<-|[<-|[]]]; reflexivity. }
  split; [exact Hm|]. split; [exact Hs|].
  assert (H1 : nth_error (final_series flat_portfolio) 1
               = Some (1%nat, map Some [1 / 2; 1 / 2])).
  { rewrite (final_series_nth_full flat_portfolio 1 [1 / 2; 1 / 2]).
    - reflexivity.
    - unfold len. simpl. lia.
    - cbn -[INR Rdiv]. repeat f_equal; simpl; lra. }
  eexists. split; [now apply calculate_weights_table|].
  split; [reflexivity|]. split.
  - rewrite (weights_table_nth _ _ _ _ H1). reflexivity.
  - rewrite (weights_table_nth flat_portfolio 2 2%nat (map Some [1 / 2; 1 / 2])).
    + reflexivity.
    + apply (final_series_nth_blank flat_portfolio 1 1%nat); auto.
      unfold len. simpl. lia.
Qed.

(** ** C1: a run without warm-up, and a warm-up row of eleven assets *)

(** When both windows have length 0 there is no warm-up row: every date
    is computed from empty windows, and the zero fill leaves a table of
    zeros. *)
Lemma zero_windows_rows_sum_to_zero :
  exists st' pw,
    calculate_weights zero_window_portfolio = Some st' /\
    portfolio_weights st' = Some pw /\
    ~ rows_sum_to_one zero_window_portfolio pw.
Proof.
  assert (HN : length (assets zero_window_portfolio) <> O) by (simpl; discriminate).
  eexists. exists (weights_table zero_window_portfolio).
  split.
  { apply calculate_weights_table; [simpl; auto | | exact HN].
    simpl. repeat constructor; simpl; intuition discriminate. }
  split; [reflexivity|].
  intros H.
  assert (Hrow : nth_error (final_series zero_window_portfolio) 0
                 = Some (0%nat, map Some [0; 0])).
  { unfold final_series. rewrite nth_error_map.
    rewrite (ffill_from_first _ 0%nat (repeat NaN 2)).
    - reflexivity.
    - rewrite dated_series_nth by (unfold len; simpl; lia).
      unfold raw_series. cbn [zero_window_portfolio init lookback momentum_window Nat.max Nat.ltb Nat.leb].
      rewrite short_lookback_NaN; [reflexivity | exact HN | simpl; lia]. }
  apply weights_table_nth in Hrow. apply nth_error_In in Hrow.
  destruct (H _ _ Hrow) as [[ws [E Hs]] _].
  cbn in E. destruct ws as [|a [|b [|c ws]]]; try discriminate.
  injection E as <- <-. simpl in Hs. lra.
Qed.

(** C1 fails in two ways.  With both windows of length 0 the rows are rows
    of zeros.  And where there is a warm-up, the sum is 1 only up to
    rounding: for eleven assets the eleven cells [1.0 / 11] of a warm-up
    row total [1 + 2^-55], not 1. *)
Lemma rows_do_not_sum_to_exactly_one :
  (exists st' pw,
     calculate_weights zero_window_portfolio = Some st' /\
     portfolio_weights st' = Some pw /\
     ~ rows_sum_to_one zero_window_portfolio pw) /\
  (exists ws,
     Binary64.warmup_weights 11 = Some ws /\
     rsum (map Binary64.to_R ws) = 1 + / 2 ^ 55 /\
     rsum (map Binary64.to_R ws) <> 1).
Proof.
  split; [exact zero_windows_rows_sum_to_zero|].
  destruct warmup_weights_eleven_total as [ws [E [_ Hs]]].
  exists ws. split; [exact E|]. split; [exact Hs|].
  rewrite Hs.
  assert (0 < / 2 ^ 55) by (apply Rinv_0_lt_compat, pow_lt; lra). lra.
Qed.

(** ** C5: the risk-parity weight against the volatility *)

Lemma nth_error_map_middle {A B : Type} (f : A -> B) (pre post : list A) (x : A) :
  nth_error (map f (pre ++ x :: post)) (length pre) = Some (f x).
Proof.
  rewrite nth_error_map, nth_error_app2 by lia.
  now rewrite Nat.sub_diag.
Qed.

Lemma rsum_map_middle (f : R -> R) (pre post : list R) (x : R) :
  rsum (map f (pre ++ x :: post)) = f x + (rsum (map f pre) + rsum (map f post)).
Proof. rewrite map_app, rsum_app. simpl. lra. Qed.




(** The risk-parity weight of the asset in the middle. *)
Lemma rp_weight_middle (pre post : list R) (v : R) :
  nth_error (rp_weights_of (map Some (pre ++ v :: post))) (length pre)
  = Some (Some (inv_floor v
                / (inv_floor v + (rsum (map inv_floor pre) + rsum (map inv_floor post))))).
Proof.
  rewrite rp_weights_spec by (destruct pre; discriminate).
  unfold rp_real. rewrite map_map, map_map.
  rewrite (nth_error_map_middle _ pre post v).
  fold inv_floor. now rewrite (rsum_map_middle inv_floor).
Qed.



(** ** C6: the momentum weight against the trailing mean return *)

Lemma low_le (ms : list R) (m : R) : In m ms -> low ms <= m * 252.
Proof.
  intros H. unfold low.
  assert (Hs : In (m * 252) (map (fun m => m * 252) ms))
    by (apply in_map_iff; now exists m).
  destruct (map (fun m => m * 252) ms) as [|s rest]; [contradiction|].
  destruct Hs as [<-|Hs]; [apply rmin_list_le_init | now apply rmin_list_le].
Qed.

Lemma low_le_high (ms : list R) : low ms <= high ms.
Proof.
  unfold low, high. destruct (map (fun m => m * 252) ms) as [|s rest]; [lra|].
  eapply Rle_trans; [apply rmin_list_le_init | apply rmax_list_ge_init].
Qed.

Lemma minmax_real_eq (ms : list R) :
  minmax_real ms = map (fun m => (m * 252 - low ms) / (high ms - low ms + eps)) ms.
Proof.
  unfold minmax_real, low, high.
  destruct (map (fun m => m * 252) ms) as [|s rest] eqn:Es.
  - destruct ms; [reflexivity | discriminate].
  - cbv zeta. rewrite <- Es, map_map. reflexivity.
Qed.

Lemma rsum_minmax_real (ms : list R) :
  rsum (minmax_real ms) = gap ms / (high ms - low ms + eps).
Proof.
  rewrite minmax_real_eq. unfold gap.
  rewrite <- (rsum_map_div (high ms - low ms + eps)), map_map. reflexivity.
Qed.

Lemma gap_nonneg (ms : list R) : 0 <= gap ms.
Proof.
  unfold gap. apply rsum_nonneg. intros x. rewrite in_map_iff. intros [m [<- Hm]].
  pose proof (low_le ms m Hm). lra.
Qed.

(** The scores are not all equal exactly when the divisor of line 79 is
    not zero. *)
Lemma gap_pos (ms : list R) :
  (exists x y, In x ms /\ In y ms /\ x <> y) -> 0 < gap ms.
Proof.
  intros [x [y [Hx [Hy Hxy]]]].
  destruct (Rle_lt_or_eq_dec 0 (gap ms) (gap_nonneg ms)) as [H|H]; [exact H|].
  exfalso. apply Hxy.
  assert (Hz : forall m, In m ms -> m * 252 = low ms).
  { intros m Hm.
    assert (m * 252 - low ms = 0); [|lra].
    apply (rsum_zero_all_zero (map (fun m => m * 252 - low ms) ms)).
    - intros z. rewrite in_map_iff. intros [m0 [<- H0]].
      pose proof (low_le ms m0 H0). lra.
    - symmetry. exact H.
    - apply in_map_iff. now exists m. }
  pose proof (Hz x Hx). pose proof (Hz y Hy). lra.
Qed.

Lemma unequal_scores_momentum (ms : list R) :
  (exists x y, In x ms /\ In y ms /\ x <> y) ->
  momentum_weights_of (map Some ms) = map Some (momentum_real ms).
Proof.
  intros H. rewrite momentum_weights_spec.
  destruct (Req_EM_T (rsum (minmax_real ms)) 0) as [E|_]; [|reflexivity].
  exfalso. rewrite rsum_minmax_real in E.
  pose proof (gap_pos ms H). pose proof (low_le_high ms). pose proof eps_pos.
  assert (0 < gap ms / (high ms - low ms + eps)) by (apply Rdiv_lt_0_compat; lra).
  lra.
Qed.

(** C6 at the failing input.  Two assets, the other one with a trailing
    mean return of 2/100.  With its own mean return at 1/100 the asset has
    the momentum weight 0.  Raised to 2/100, its mean return equals the
    other one: the min-max scores are all 0, line 79 divides 0 by 0, and
    the momentum weight of the asset is NaN, not a number at least as
    large as before. *)
Theorem raised_mean_return_gives_NaN_weight :
  momentum_weights_of (map Some [1 / 100; 2 / 100]) = [Some 0; Some 1] /\
  momentum_weights_of (map Some [2 / 100; 2 / 100]) = [NaN; NaN].
Proof.
  split.
  - rewrite unequal_scores_momentum.
    + unfold momentum_real. rewrite rsum_minmax_real, minmax_real_eq.
      assert (Hlo : low [1 / 100; 2 / 100] = 1 / 100 * 252).
      { unfold low. cbn [map rmin_list]. apply Rmin_left. lra. }
      assert (Hhi : high [1 / 100; 2 / 100] = 2 / 100 * 252).
      { unfold high. cbn [map rmax_list]. apply Rmax_right. lra. }
      unfold gap. rewrite Hlo, Hhi. cbn [map rsum].
      pose proof eps_pos as He.
      apply f_equal2; [f_equal; field; lra|].
      apply f_equal2; [f_equal; field; lra | reflexivity].
    + exists (1 / 100), (2 / 100). simpl. repeat split; auto. lra.
  - apply (equal_scores_momentum_NaN [2 / 100; 2 / 100]).
    intros x y [<-|[<-|[]]] [<-|[<-|[]]]; reflexivity.
Qed.

(** ** C4: the blend weight 0 at a date of equal momentum scores *)

Lemma pct_cell_value (p c : R) :
  p <> 0 -> fillna 0 (pct_cell (Some p) (Some c)) = c / p - 1.
Proof.
  intros Hp. unfold pct_cell, fdiv.
  destruct (Req_EM_T p 0) as [E|_]; [contradiction|]. reflexivity.
Qed.

Lemma quiet_vol_moving : eps < std_real [0; 11 / 10 - 1; 11 / 11 - 1] * sqrt 252.
Proof.
  unfold std_real. cbn [length map rsum Nat.sub].
  rewrite <- sqrt_mult.
  - rewrite <- (sqrt_square eps) at 1 by (apply Rlt_le, eps_pos).
    apply sqrt_lt_1_alt. unfold eps. simpl INR. split; lra.
  - simpl INR. lra.
  - lra.
Qed.

Lemma quiet_vol_still : std_real [0; 20 / 20 - 1; 20 / 20 - 1] * sqrt 252 = 0.
Proof.
  unfold std_real. cbn [length map rsum Nat.sub]. simpl INR.
  match goal with |- sqrt ?q * _ = 0 => replace q with 0 by field end.
  rewrite sqrt_0. ring.
Qed.

Lemma quiet_vols :
  volatilities_at quiet_portfolio 3
  = map Some ([] ++ std_real [0; 11 / 10 - 1; 11 / 11 - 1] * sqrt 252 :: [0]).
Proof.
  unfold volatilities_at. rewrite frame_std_cases.
  cbn -[INR Rdiv Rminus Rplus Rmult sqrt std_real].
  rewrite !pct_cell_value by lra. now rewrite quiet_vol_still.
Qed.

Lemma quiet_means : mean_returns_at quiet_portfolio 3 = map Some [0; 0].
Proof.
  unfold mean_returns_at. rewrite frame_mean_cases.
  cbn -[INR Rdiv Rminus Rplus Rmult].
  rewrite !pct_cell_value by lra.
  repeat f_equal; simpl; field.
Qed.

(** C4 at the failing input.  Line 81 adds both terms of the blend
    whatever the blend weight, and 0 times NaN is NaN.  At a date of equal
    momentum scores the momentum weights are NaN (the division of line
    79): with blend weight 0 the weights computed for the date are NaN,
    not the risk-parity weights, and the stored row is the equal weight of
    the row above, while the risk-parity weights of the date are numbers
    that are not equal. *)
Theorem blend_zero_not_risk_parity :
  exists st' pw row,
    calculate_weights quiet_portfolio = Some st' /\
    portfolio_weights st' = Some pw /\
    nth_error (rows pw) 3 = Some (3%nat, row) /\
    momentum_weight quiet_portfolio = 0 /\
    steady_weights quiet_portfolio 3 = [NaN; NaN] /\
    steady_weights quiet_portfolio 3 <> rp_weights_of (volatilities_at quiet_portfolio 3) /\
    pick (assets_mask quiet_portfolio) row = [Some (1 / 2); Some (1 / 2)] /\
    pick (assets_mask quiet_portfolio) row <> rp_weights_of (volatilities_at quiet_portfolio 3).
Proof.
  assert (HN : length (assets quiet_portfolio) <> O) by (simpl; discriminate).
  assert (Hex : In (exclude quiet_portfolio) (columns (price quiet_portfolio)))
    by (simpl; auto).
  assert (Hnd : NoDup (index (price quiet_portfolio))).
  { simpl. repeat constructor; simpl; intuition discriminate. }
  destruct (equal_scores_steady_NaN quiet_portfolio 3 [0; 0] HN quiet_means) as [_ Hs].
  { intros x y [<-|[<-|[]]] [<-|[<-|[]]]; reflexivity. }
  (* the risk-parity weight of the first asset is below one half *)
  pose proof (rp_weight_middle [] [0] (std_real [0; 11 / 10 - 1; 11 / 11 - 1] * sqrt 252))
    as Hrp.
  rewrite <- quiet_vols in Hrp. cbn [length map rsum] in Hrp.
  assert (Hne : inv_floor (std_real [0; 11 / 10 - 1; 11 / 11 - 1] * sqrt 252)
                / (inv_floor (std_real [0; 11 / 10 - 1; 11 / 11 - 1] * sqrt 252)
                   + (0 + (inv_floor 0 + 0))) <> 1 / 2).
  { pose proof quiet_vol_moving as Hv. pose proof eps_pos as He.
    set (v := std_real [0; 11 / 10 - 1; 11 / 11 - 1] * sqrt 252) in *.
    unfold inv_floor.
    rewrite (Rmax_left v eps) by lra. rewrite (Rmax_right 0 eps) by lra.
    assert (Ha : 0 < 1 / v) by (apply Rdiv_lt_0_compat; lra).
    assert (Hb : 1 / v < 1 / eps).
    { unfold Rdiv. rewrite !Rmult_1_l. apply Rinv_lt_contravar; [nra | exact Hv]. }
    intros E.
    assert (E' : 1 / v / (1 / v + (0 + (1 / eps + 0))) * (1 / v + (0 + (1 / eps + 0)))
                 = 1 / v) by (field; lra).
    rewrite E in E'. lra. }
  assert (H2 : nth_error (final_series quiet_portfolio) 2
               = Some (2%nat, map Some [1 / 2; 1 / 2])).
  { rewrite (final_series_nth_full quiet_portfolio 2 [1 / 2; 1 / 2]).
    - reflexivity.
    - unfold len. simpl. lia.
    - cbn -[INR Rdiv]. repeat f_equal; simpl; lra. }
  assert (H3 : nth_error (final_series quiet_portfolio) 3
               = Some (3%nat, map Some [1 / 2; 1 / 2])).
  { apply (final_series_nth_blank quiet_portfolio 2 2%nat); auto. }
  eexists. exists (weights_table quiet_portfolio).
  exists [Some 0; Some (1 / 2); Some (1 / 2)].
  split; [now apply calculate_weights_table|].
  split; [reflexivity|].
  split; [rewrite (weights_table_nth _ _ _ _ H3); reflexivity|].
  split; [reflexivity|].
  split; [exact Hs|].
  split.
  - intros E. rewrite <- E, Hs in Hrp. discriminate.
  - split; [reflexivity|].
    intros E. cbn [assets_mask quiet_portfolio init price quiet_price columns map
                   String.eqb Ascii.eqb Bool.eqb negb pick exclude] in E.
    rewrite <- E in Hrp. cbn [nth_error] in Hrp.
    injection Hrp as Hrp. apply Hne. now symmetry.
Qed.

(** ** C7: the position check *)

Lemma fleb_nansum (row : list cell) (c : R) :
  fleb (nansum row) (Some c) = true <-> rsum (valid row) <= c.
Proof.
  unfold fleb, nansum. destruct (Rle_dec (rsum (valid row)) c); split; auto; discriminate.
Qed.

Lemma check_portfolio_position_true (pw : DataFrame cell) :
  check_portfolio_position pw = ([], Some true) <->
  (forall d row, In (d, row) (rows pw) -> rsum (valid row) <= 101 / 100).
Proof.
  unfold check_portfolio_position.
  destruct (forallb _ (rows pw)) eqn:E.
  - split; [|reflexivity]. intros _ d row Hin.
    rewrite forallb_forall in E. apply fleb_nansum. apply (E (d, row) Hin).
  - split; [discriminate|]. intros H. exfalso.
    assert (E' : forallb (fun r => fleb (nansum (snd r)) (Some (101 / 100))) (rows pw) = true).
    { apply forallb_forall. intros [d row] Hin. apply fleb_nansum. now apply (H d). }
    congruence.
Qed.

Lemma check_portfolio_position_cases (pw : DataFrame cell) :
  check_portfolio_position pw = ([], Some true) \/
  check_portfolio_position pw = ([position_message], Some false).
Proof.
  unfold check_portfolio_position. destruct (forallb _ (rows pw)); auto.
Qed.

(** Every row of the weight table sums to 1 or to 0. *)
Lemma weights_table_row_sum (st : MyPortfolio) (d : date) (row : list cell) :
  length (assets st) <> O ->
  In (d, row) (rows (weights_table st)) ->
  rsum (valid row) = 1 \/ rsum (valid row) = 0.
Proof.
  intros HN Hin.
  destruct (weights_table_row st d row Hin) as [v [Hv ->]].
  destruct (final_series_cases st (d, v) HN Hv) as [[ws [E [Hl Hs]]]|E];
    cbn [snd] in E; subst v.
  - left. rewrite (valid_shape_sum (exclude st) (columns (price st))).
    + now rewrite valid_map_Some.
    + rewrite length_map. exact Hl.
  - right. rewrite (valid_shape_sum (exclude st) (columns (price st))).
    + rewrite valid_map_Some, rsum_repeat. ring.
    + now rewrite length_map, repeat_length.
Qed.

(** C7, amended.  [check_portfolio_position] returns [True] without
    printing exactly when every row of the table sums to at most 1.01, and
    prints its message and returns [False] otherwise; the check accepts
    the table that [calculate_weights] stores.  That the rows of that
    table sum to at most 1 is not part of the statement: it holds up to
    rounding only, which is what the tolerance is for. *)
Theorem position_check_accepts_weights (st : MyPortfolio) (pw0 : DataFrame cell) :
  In (exclude st) (columns (price st)) ->
  NoDup (index (price st)) ->
  length (assets st) <> O ->
  (check_portfolio_position pw0 = ([], Some true) <->
   (forall d row, In (d, row) (rows pw0) -> rsum (valid row) <= 101 / 100)) /\
  (check_portfolio_position pw0 = ([], Some true) \/
   check_portfolio_position pw0 = ([position_message], Some false)) /\
  exists st' pw,
    calculate_weights st = Some st' /\
    portfolio_weights st' = Some pw /\
    check_portfolio_position pw = ([], Some true).
Proof.
  intros Hex Hnd HN.
  split; [apply check_portfolio_position_true|].
  split; [apply check_portfolio_position_cases|].
  eexists. exists (weights_table st).
  split; [now apply calculate_weights_table|].
  split; [reflexivity|].
  apply check_portfolio_position_true. intros d row Hin.
  destruct (weights_table_row_sum st d row HN Hin); lra.
Qed.

Lemma position_check_accepts_weights_witness :
  (check_portfolio_position (weights_table example_portfolio) = ([], Some true) <->
   (forall d row, In (d, row) (rows (weights_table example_portfolio)) ->
                  rsum (valid row) <= 101 / 100)) /\
  (check_portfolio_position (weights_table example_portfolio) = ([], Some true) \/
   check_portfolio_position (weights_table example_portfolio)
   = ([position_message], Some false)) /\
  exists st' pw,
    calculate_weights example_portfolio = Some st' /\
    portfolio_weights st' = Some pw /\
    check_portfolio_position pw = ([], Some true).
Proof.
  apply (position_check_accepts_weights example_portfolio (weights_table example_portfolio)).
  - exact example_excluded.
  - exact example_dates.
  - exact example_assets.
Defined.

(** The invariant that C7 cites, a row total of at most 1, fails by
    rounding: the eleven cells [1.0 / 11] of a warm-up row of eleven
    assets total [1 + 2^-55], which is above 1 and below the 1.01 that the
    check allows. *)
Lemma equal_weights_total_exceeds_one :
  exists ws,
    Binary64.warmup_weights 11 = Some ws /\
    1 < rsum (map Binary64.to_R ws) <= 101 / 100.
Proof.
  destruct warmup_weights_eleven_total as [ws [E [_ Hs]]].
  exists ws. split; [exact E|]. rewrite Hs.
  assert (0 < / 2 ^ 55) by (apply Rinv_0_lt_compat, pow_lt; lra).
  assert (/ 2 ^ 55 <= / 2 ^ 7).
  { apply Rinv_le_contravar; [apply pow_lt; lra|].
    apply Rle_pow; [lra | lia]. }
  assert (/ 2 ^ 7 <= 1 / 100) by (simpl; lra).
  lra.
Qed.

(** ** C8: the threshold checks *)

Section Thresholds.

Variable qs_stats_sharpe : DataFrame cell -> list cell.
Variables df Bdf : DataFrame cell.
Variable self : AssignmentJudge.

Lemma position_check_value :
  check_portfolio_position (fst (mp self))
  = if (position_ok self) then ([], Some true) else ([position_message], Some false).
Proof. unfold check_portfolio_position, position_ok. now destruct (forallb _ _). Qed.

Lemma greater_than_one_value (sharpe : list cell) (s1 : cell) :
  report_metrics qs_stats_sharpe df (mp self) = Some sharpe ->
  nth_error sharpe 1 = Some s1 ->
  check_sharp_ratio_greater_than_one qs_stats_sharpe df self =
  if (position_ok self) then
    if fgtb s1 (Some 1)
    then (["Problem 4.1 Success - Get 15 points"%string], Some 15%nat)
    else (["Problem 4.1 Fail"%string], Some 0%nat)
  else ([position_message], Some 0%nat).
Proof.
  intros Hr Hn. unfold check_sharp_ratio_greater_than_one.
  rewrite position_check_value. destruct (position_ok self); [|reflexivity].
  cbn [bind app negb]. rewrite Hr. cbn [lift bind app]. rewrite Hn.
  cbn [bind app]. destruct (fgtb s1 (Some 1)); reflexivity.
Qed.

Lemma greater_than_spy_value (sharpe : list cell) (s1 s0 : cell) :
  report_metrics qs_stats_sharpe Bdf (Bmp self) = Some sharpe ->
  nth_error sharpe 1 = Some s1 ->
  nth_error sharpe 0 = Some s0 ->
  check_sharp_ratio_greater_than_spy qs_stats_sharpe Bdf self =
  if (position_ok self) then
    if fgtb s1 s0
    then (["Problem 4.2 Success - Get 15 points"%string], Some 15%nat)
    else (["Problem 4.2 Fail"%string], Some 0%nat)
  else ([position_message], Some 0%nat).
Proof.
  intros Hr Hn1 Hn0. unfold check_sharp_ratio_greater_than_spy.
  rewrite position_check_value. destruct (position_ok self); [|reflexivity].
  cbn [bind app negb]. rewrite Hr. cbn [lift bind app]. rewrite Hn1.
  cbn [bind app]. rewrite Hn0. cbn [bind app].
  destruct (fgtb s1 s0); reflexivity.
Qed.

End Thresholds.

Lemma threshold_outcome_value (ok above : bool) (won lost : string) :
  threshold_outcome
    (if ok then
       if above then ([won], Some 15%nat) else ([lost], Some 0%nat)
     else ([position_message], Some 0%nat))
    ok above.
Proof.
  unfold threshold_outcome.
  destruct ok, above; do 2 eexists; (split; [reflexivity|]); split;
    try (split; [intros H; try discriminate H; auto
                | intros [H1 H2]; try discriminate H1; try discriminate H2; reflexivity]);
    intros H; try (exfalso; apply H; reflexivity);
    (split; [reflexivity | discriminate]).
Qed.

(** C8.  When the Sharpe ratios are available, each threshold check
    returns a score and raises nothing: 15 exactly when the position check
    of [self.mp[0]] passes and its comparison holds, and otherwise 0 after
    printing a message. *)
Theorem threshold_checks_return_scores
    (qs_stats_sharpe : DataFrame cell -> list cell) (df Bdf : DataFrame cell)
    (self : AssignmentJudge) (sharpe sharpe_b : list cell) (mp1 b1 b0 : cell) :
  report_metrics qs_stats_sharpe df (mp self) = Some sharpe ->
  nth_error sharpe 1 = Some mp1 ->
  report_metrics qs_stats_sharpe Bdf (Bmp self) = Some sharpe_b ->
  nth_error sharpe_b 1 = Some b1 ->
  nth_error sharpe_b 0 = Some b0 ->
  (position_ok self = true <->
   check_portfolio_position (fst (mp self)) = ([], Some true)) /\
  threshold_outcome (check_sharp_ratio_greater_than_one qs_stats_sharpe df self)
                    (position_ok self) (fgtb mp1 (Some 1)) /\
  threshold_outcome (check_sharp_ratio_greater_than_spy qs_stats_sharpe Bdf self)
                    (position_ok self) (fgtb b1 b0).
Proof.
  intros Hr Hn Hrb Hn1 Hn0. split; [|split].
  - rewrite position_check_value. destruct (position_ok self); split; auto; discriminate.
  - rewrite (greater_than_one_value _ _ _ _ _ Hr Hn). apply threshold_outcome_value.
  - rewrite (greater_than_spy_value _ _ _ _ _ _ Hrb Hn1 Hn0). apply threshold_outcome_value.
Qed.

Lemma threshold_checks_return_scores_witness :
  (position_ok example_judge = true <->
   check_portfolio_position (fst (mp example_judge)) = ([], Some true)) /\
  threshold_outcome
    (check_sharp_ratio_greater_than_one example_sharpe example_price example_judge)
    (position_ok example_judge) (fgtb (Some 2) (Some 1)) /\
  threshold_outcome
    (check_sharp_ratio_greater_than_spy example_sharpe example_price example_judge)
    (position_ok example_judge) (fgtb (Some 2) (Some (1 / 2))).
Proof.
  apply (threshold_checks_return_scores example_sharpe example_price example_price
           example_judge [Some (1 / 2); Some 2] [Some (1 / 2); Some 2]
           (Some 2) (Some 2) (Some (1 / 2))); reflexivity.
Defined.

(** ** C10: the portfolio column *)

Lemma existsb_eqb_notin (x : string) (l : list string) :
  ~ In x l -> existsb (String.eqb x) l = false.
Proof.
  intros H. destruct (existsb (String.eqb x) l) eqn:E; [|reflexivity].
  exfalso. apply existsb_exists in E. destruct E as [y [Hy E]].
  apply String.eqb_eq in E. subst y. contradiction.
Qed.


Lemma valid_products (a b : list R) :
  valid (map2 fmul (map Some a) (map Some b)) = map2 Rmult a b.
Proof.
  revert b. induction a as [|x a IH]; intros [|y b]; simpl; try reflexivity.
  now rewrite IH.
Qed.

Lemma valid_all_NaN {A : Type} (l : list A) : valid (map (fun _ => NaN) l) = [].
Proof. induction l as [|x l IH]; simpl; auto. Qed.

Lemma lookup_row_In {A : Type} (d : date) (rs : list (date * list A)) (w : list A) :
  lookup_row d rs = Some w -> In (d, w) rs.
Proof.
  induction rs as [|[d' r] rs IH]; simpl; [discriminate|].
  destruct (Nat.eqb d' d) eqn:E.
  - intros H. injection H as ->. apply Nat.eqb_eq in E. subst d'. now left.
  - intros H. right. now apply IH.
Qed.




(** ** C9: the returns table *)

(** The returns table has the dates and the columns of the table given to
    [__init__], whatever that table holds. *)
Lemma pct_from_index (prev : list cell) (rs : list (date * list cell)) :
  map fst (pct_from prev rs) = map fst rs.
Proof.
  revert prev. induction rs as [|[d r] rs IH]; intros prev; [reflexivity|].
  cbn [pct_from map fst]. now rewrite IH.
Qed.

Lemma returns_index (price0 : DataFrame cell) (ex : string) (l m : nat) (w : R) :
  index (returns (init price0 ex l m w)) = index price0 /\
  columns (returns (init price0 ex l m w)) = columns price0.
Proof.
  split; [|reflexivity].
  unfold index, init, fillna_frame, pct_change. cbn [returns rows].
  rewrite map_map. cbn [fst].
  pose proof (ffill_from_index [] (rows price0)) as H.
  unfold ffill. cbn [rows].
  destruct (ffill_from [] (rows price0)) as [|[d r] rs].
  - exact H.
  - cbn [map fst] in *. now rewrite pct_from_index.
Qed.

(** C9 at the failing input.  [__init__] stores the prices without their
    incomplete rows but takes the returns from the table as given: the
    returns table keeps the date that the stored price table has lost. *)
Theorem returns_keep_dropped_dates :
  index (price late_listing_portfolio) = [1%nat; 2%nat] /\
  index (returns late_listing_portfolio) = [0%nat; 1%nat; 2%nat] /\
  len (returns late_listing_portfolio) <> len (price late_listing_portfolio).
Proof.
  split; [reflexivity|]. split.
  - apply (returns_index late_listing_price).
  - unfold len.
    pose proof (proj1 (returns_index late_listing_price "SPY" 50 20 (1 / 2))) as H.
    apply (f_equal (@length date)) in H. unfold index in H. rewrite length_map in H.
    fold late_listing_portfolio in H. rewrite H. simpl. discriminate.
Qed.

(** On a table without missing prices [dropna] removes nothing. *)
Lemma dropna_no_missing (df : DataFrame cell) : no_missing df -> dropna df = df.
Proof.
  intros H. unfold dropna. destruct df as [cs rs]. cbn [columns rows] in *. f_equal.
  unfold no_missing in H. cbn [rows] in H.
  induction rs as [|r rs IH]; [reflexivity|].
  cbn [filter]. rewrite (H r) by (now left). cbn [negb]. f_equal.
  apply IH. intros r' Hr'. apply H. now right.
Qed.

Lemma ffill_row_complete (u r : list cell) :
  existsb is_nan r = false -> ffill_row u r = r.
Proof.
  revert u. induction r as [|c r IH]; intros u H; [reflexivity|].
  cbn [existsb] in H. apply orb_false_iff in H. destruct H as [Hc Hr].
  destruct c as [x|]; [|discriminate].
  cbn [ffill_row]. destruct u; cbn [ffill_cell]; now rewrite IH.
Qed.

Lemma ffill_from_complete (u : list cell) (rs : list (date * list cell)) :
  (forall r, In r rs -> existsb is_nan (snd r) = false) -> ffill_from u rs = rs.
Proof.
  revert u. induction rs as [|[d r] rs IH]; intros u H; [reflexivity|].
  cbn [ffill_from]. rewrite (ffill_row_complete u r) by (apply (H (d, r)); now left).
  f_equal. apply IH. intros r' Hr'. apply H. now right.
Qed.

Lemma pct_from_nth (prev : list cell) (rs : list (date * list cell))
    (t : nat) (d d0 d1 : date) (r0 r1 : list cell) :
  nth_error ((d, prev) :: rs) t = Some (d0, r0) ->
  nth_error rs t = Some (d1, r1) ->
  nth_error (pct_from prev rs) t = Some (d1, map2 pct_cell r0 r1).
Proof.
  revert prev d t. induction rs as [|[d' r'] rs IH]; intros prev d t H0 H1.
  - destruct t; discriminate.
  - destruct t as [|t].
    + cbn [nth_error] in *. injection H0 as _ <-. injection H1 as <- <-. reflexivity.
    + cbn [nth_error pct_from] in *. now apply (IH r' d').
Qed.

Lemma map_map2 {A B C D : Type} (g : C -> D) (f : A -> B -> C) (l1 : list A) (l2 : list B) :
  map g (map2 f l1 l2) = map2 (fun a b => g (f a b)) l1 l2.
Proof.
  revert l2. induction l1 as [|x l1 IH]; intros [|y l2]; simpl; try reflexivity.
  now rewrite IH.
Qed.

(** On a table without missing prices: the stored prices are the table
    itself, the returns have its dates and columns, their first row is
    zero, and each later row is made of the cells [pct_cell] of the row
    and the row above it. *)
Lemma returns_of_complete_rows (price0 : DataFrame cell) (ex : string)
    (l m : nat) (w : R) :
  no_missing price0 ->
  price (init price0 ex l m w) = price0 /\
  index (returns (init price0 ex l m w)) = index (price (init price0 ex l m w)) /\
  columns (returns (init price0 ex l m w)) = columns (price (init price0 ex l m w)) /\
  (forall d r, nth_error (rows price0) 0 = Some (d, r) ->
     nth_error (rows (returns (init price0 ex l m w))) 0
     = Some (d, map (fun _ => 0) r)) /\
  (forall t d0 r0 d1 r1,
     nth_error (rows price0) t = Some (d0, r0) ->
     nth_error (rows price0) (S t) = Some (d1, r1) ->
     nth_error (rows (returns (init price0 ex l m w))) (S t)
     = Some (d1, map2 (fun a b => fillna 0 (pct_cell a b)) r0 r1)).
Proof.
  intros Hc.
  assert (Hp : price (init price0 ex l m w) = price0) by (now apply dropna_no_missing).
  split; [exact Hp|]. rewrite Hp.
  split; [apply returns_index|]. split; [reflexivity|].
  unfold init, fillna_frame, pct_change, ffill. cbn [returns rows].
  rewrite (ffill_from_complete [] (rows price0) Hc).
  split.
  - intros d r H. destruct (rows price0) as [|[d' r'] rs]; [discriminate|].
    cbn [nth_error] in H. injection H as -> ->.
    cbn [map nth_error fst snd]. now rewrite map_map.
  - intros t d0 r0 d1 r1 H0 H1.
    destruct (rows price0) as [|[d' r'] rs]; [discriminate|].
    cbn [nth_error] in H1. cbn [map nth_error].
    rewrite nth_error_map, (pct_from_nth r' rs t d' d0 d1 r0 r1 H0 H1).
    cbn [option_map fst snd]. now rewrite map_map2.
Qed.


(** * Further properties of the code *)

(** ** [calculate_weights]: the shape of its table *)

Lemma assets_empty_iff (st : MyPortfolio) :
  length (assets st) = O <->
  (forall c, In c (columns (price st)) -> c = exclude st).
Proof.
  unfold assets, assets_mask.
  induction (columns (price st)) as [|c cs IH]; cbn [map pick length].
  - split; [intros _ c [] | reflexivity].
  - destruct (String.eqb c (exclude st)) eqn:E; cbn [negb length].
    + apply String.eqb_eq in E. rewrite IH. split.
      * intros H c' [<-|Hc']; auto.
      * intros H c' Hc'. apply H. now right.
    + split; [discriminate|]. intros H. exfalso.
      apply String.eqb_neq in E. apply E. apply H. now left.
Qed.

Lemma shape_numbers (ex : string) (cs : list string) (ws : list R) (c : cell) :
  length ws = length (pick (amask ex cs) cs) ->
  In c (shape ex cs (map Some ws)) -> c <> NaN.
Proof.
  revert ws. induction cs as [|c0 cs IH]; intros ws Hl Hin; cbn [amask map pick shape] in *.
  - contradiction.
  - destruct (String.eqb c0 ex); cbn [negb pick length] in *.
    + destruct Hin as [<-|Hin]; [discriminate | now apply (IH ws)].
    + destruct ws as [|w ws]; [discriminate|]. cbn [map] in Hin.
      destruct Hin as [<-|Hin]; [discriminate|].
      apply (IH ws); [now injection Hl | exact Hin].
Qed.

(** The weight table has the columns and the dates of the stored prices,
    in their order; each of its rows has one cell per column, and no cell
    is NaN.  The other attributes of the object are left as they were. *)
Theorem weight_table_shape (st : MyPortfolio) :
  In (exclude st) (columns (price st)) ->
  NoDup (index (price st)) ->
  length (assets st) <> O ->
  exists st' pw,
    calculate_weights st = Some st' /\
    portfolio_weights st' = Some pw /\
    price st' = price st /\ returns st' = returns st /\
    portfolio_returns st' = portfolio_returns st /\
    columns pw = columns (price st) /\
    index pw = index (price st) /\
    forall d row, In (d, row) (rows pw) ->
      length row = length (columns pw) /\
      forall c, In c row -> c <> NaN.
Proof.
  intros Hex Hnd HN.
  eexists. exists (weights_table st).
  split; [now apply calculate_weights_table|].
  cbn [portfolio_weights price returns portfolio_returns].
  do 5 (split; [reflexivity|]).
  split.
  - unfold index, weights_table. cbn [rows]. rewrite map_map.
    unfold shape_row. cbn [fst]. apply final_series_index.
  - intros d row Hin.
    destruct (weights_table_row st d row Hin) as [v [Hv ->]].
    split; [apply shape_length|].
    intros c Hc.
    destruct (final_series_cases st (d, v) HN Hv) as [[ws [E [Hl Hs]]]|E];
      cbn [snd] in E; subst v.
    + apply (shape_numbers (exclude st) (columns (price st)) ws c); auto.
    + apply (shape_numbers (exclude st) (columns (price st))
                           (repeat 0 (length (assets st))) c); auto.
      apply repeat_length.
Qed.

Lemma weight_table_shape_witness :
  exists st' pw,
    calculate_weights example_portfolio = Some st' /\
    portfolio_weights st' = Some pw /\
    price st' = price example_portfolio /\ returns st' = returns example_portfolio /\
    portfolio_returns st' = portfolio_returns example_portfolio /\
    columns pw = columns (price example_portfolio) /\
    index pw = index (price example_portfolio) /\
    forall d row, In (d, row) (rows pw) ->
      length row = length (columns pw) /\
      forall c, In c row -> c <> NaN.
Proof.
  apply (weight_table_shape example_portfolio).
  - exact example_excluded.
  - exact example_dates.
  - exact example_assets.
Defined.

(** ** [calculate_weights]: the dates whose weights are NaN *)

Lemma final_series_nth_some (st : MyPortfolio) (j : nat) :
  (j < len (price st))%nat ->
  exists v, nth_error (final_series st) j = Some (nth j (index (price st)) O, v).
Proof.
  intros Hj.
  assert (Hl : length (final_series st) = len (price st)).
  { rewrite <- (length_map fst), final_series_index. unfold index, len. apply length_map. }
  destruct (nth_error (final_series st) j) as [[d v]|] eqn:E.
  - exists v. f_equal. f_equal.
    pose proof (final_series_index st) as Hi.
    apply (f_equal (fun l => nth_error l j)) in Hi.
    rewrite nth_error_map, E in Hi. cbn [option_map fst] in Hi.
    symmetry in Hi. apply (nth_error_nth _ _ O) in Hi. symmetry. exact Hi.
  - apply nth_error_None in E. lia.
Qed.

(** A steady-state date whose computed weights are NaN is stored with the
    row of the date above it: the forward fill of line 87 copies that row. *)
Theorem nan_date_takes_previous_row (st : MyPortfolio) (j : nat) :
  In (exclude st) (columns (price st)) ->
  NoDup (index (price st)) ->
  length (assets st) <> O ->
  (Nat.max (lookback st) (momentum_window st) <= S j)%nat ->
  (S j < len (price st))%nat ->
  steady_weights st (S j) = repeat NaN (length (assets st)) ->
  exists st' pw row,
    calculate_weights st = Some st' /\
    portfolio_weights st' = Some pw /\
    nth_error (rows pw) j = Some (nth j (index (price st)) O, row) /\
    nth_error (rows pw) (S j) = Some (nth (S j) (index (price st)) O, row).
Proof.
  intros Hex Hnd HN HK Hj Hnan.
  destruct (final_series_nth_some st j) as [v Hv]; [lia|].
  eexists. exists (weights_table st).
  exists (shape (exclude st) (columns (price st)) v).
  split; [now apply calculate_weights_table|].
  split; [reflexivity|].
  split; [now apply weights_table_nth|].
  apply weights_table_nth.
  apply (final_series_nth_blank st j (nth j (index (price st)) O)); auto.
  unfold raw_series.
  replace (Nat.ltb (S j) (Nat.max (lookback st) (momentum_window st))) with false
    by (symmetry; apply Nat.ltb_ge; lia).
  exact Hnan.
Qed.

Lemma flat_weights_NaN :
  steady_weights flat_portfolio 2 = repeat NaN (length (assets flat_portfolio)).
Proof.
  apply (equal_scores_steady_NaN flat_portfolio 2 [0; 0]).
  - simpl. discriminate.
  - exact flat_means.
  - intros x y [<-|[<-|[]]] [<-|[<-|[]]]; reflexivity.
Qed.

Lemma nan_date_takes_previous_row_witness :
  exists st' pw row,
    calculate_weights flat_portfolio = Some st' /\
    portfolio_weights st' = Some pw /\
    nth_error (rows pw) 1 = Some (nth 1 (index (price flat_portfolio)) O, row) /\
    nth_error (rows pw) 2 = Some (nth 2 (index (price flat_portfolio)) O, row).
Proof.
  apply (nan_date_takes_previous_row flat_portfolio 1).
  - simpl. auto.
  - simpl. repeat constructor; simpl; intuition discriminate.
  - simpl. discriminate.
  - simpl. lia.
  - unfold len. simpl. lia.
  - exact flat_weights_NaN.
Defined.

(** With a lookback window of fewer than two dates no standard deviation
    exists: every steady-state date is NaN, and with a warm-up of at least
    one date the whole table is the equal weight. *)
Theorem short_lookback_all_equal_weight (st : MyPortfolio) :
  In (exclude st) (columns (price st)) ->
  NoDup (index (price st)) ->
  length (assets st) <> O ->
  (lookback st < 2)%nat ->
  (1 <= Nat.max (lookback st) (momentum_window st))%nat ->
  exists st' pw,
    calculate_weights st = Some st' /\
    portfolio_weights st' = Some pw /\
    forall d row, In (d, row) (rows pw) ->
      pick (assets_mask st) row
      = repeat (Some (1 / INR (length (assets st)))) (length (assets st)).
Proof.
  intros Hex Hnd HN HL HK.
  eexists. exists (weights_table st).
  split; [now apply calculate_weights_table|].
  split; [reflexivity|].
  assert (Hall : forall j, (j < len (price st))%nat ->
            nth_error (final_series st) j
            = Some (nth j (index (price st)) O,
                    map Some (repeat (1 / INR (length (assets st))) (length (assets st))))).
  { induction j as [|j IH]; intros Hj.
    - apply final_series_nth_full; [assumption|].
      unfold raw_series.
      replace (Nat.ltb 0 (Nat.max (lookback st) (momentum_window st))) with true
        by (symmetry; apply Nat.ltb_lt; lia).
      now rewrite map_repeat.
    - destruct (Nat.ltb (S j) (Nat.max (lookback st) (momentum_window st))) eqn:E.
      + apply final_series_nth_full; [assumption|].
        unfold raw_series. rewrite E. now rewrite map_repeat.
      + apply (final_series_nth_blank st j (nth j (index (price st)) O)); auto.
        * unfold raw_series. rewrite E. now apply short_lookback_NaN.
        * apply IH. lia. }
  intros d row Hin.
  destruct (weights_table_row st d row Hin) as [v [Hv ->]].
  apply In_nth_error in Hv. destruct Hv as [j Hj].
  assert (Hjl : (j < len (price st))%nat).
  { assert (Hl : length (final_series st) = len (price st)).
    { rewrite <- (length_map fst), final_series_index. unfold index, len. apply length_map. }
    rewrite <- Hl. apply nth_error_Some. congruence. }
  rewrite (Hall j Hjl) in Hj. injection Hj as _ <-.
  rewrite map_repeat.
  apply (pick_shape (exclude st) (columns (price st))). apply repeat_length.
Qed.

(** The small run with a lookback window of one date. *)
Lemma short_lookback_all_equal_weight_witness :
  exists st' pw,
    calculate_weights (init example_price "SPY" 1 2 (1 / 2)) = Some st' /\
    portfolio_weights st' = Some pw /\
    forall d row, In (d, row) (rows pw) ->
      pick (assets_mask (init example_price "SPY" 1 2 (1 / 2))) row
      = repeat (Some (1 / INR (length (assets (init example_price "SPY" 1 2 (1 / 2))))))
               (length (assets (init example_price "SPY" 1 2 (1 / 2)))).
Proof.
  apply (short_lookback_all_equal_weight (init example_price "SPY" 1 2 (1 / 2))).
  - simpl. auto.
  - simpl. repeat constructor; simpl; intuition discriminate.
  - simpl. discriminate.
  - simpl. lia.
  - simpl. lia.
Defined.

(** ** [calculate_weights]: long only *)

Lemma in_map_Some (x : R) (l : list R) : In (Some x) (map Some l) -> In x l.
Proof.
  rewrite in_map_iff. intros [y [E Hy]]. injection E as ->. exact Hy.
Qed.

Lemma not_in_repeat_NaN (x : R) (n : nat) : ~ In (Some x) (repeat NaN n).
Proof. intros H. apply repeat_spec in H. discriminate. Qed.

Lemma rp_real_pos (vs : list R) (x : R) : In x (rp_real vs) -> 0 < x.
Proof.
  intros H. assert (Hne : vs <> []) by (intros ->; contradiction).
  unfold rp_real in H. apply in_map_iff in H. destruct H as [y [<- Hy]].
  apply Rdiv_lt_0_compat; [now apply (inv_vol_pos vs) | now apply inv_vol_sum_pos].
Qed.

Lemma momentum_real_nonneg (ms : list R) (x : R) :
  rsum (minmax_real ms) <> 0 -> In x (momentum_real ms) -> 0 <= x.
Proof.
  intros Hs H. unfold momentum_real in H. apply in_map_iff in H.
  destruct H as [y [<- Hy]].
  assert (0 <= rsum (minmax_real ms)) by (apply rsum_nonneg, minmax_real_nonneg).
  apply Rmult_le_pos; [now apply (minmax_real_nonneg ms)|].
  apply Rlt_le, Rinv_0_lt_compat. lra.
Qed.

Lemma in_map2 {A B C : Type} (f : A -> B -> C) (l1 : list A) (l2 : list B) (z : C) :
  In z (map2 f l1 l2) -> exists x y, In x l1 /\ In y l2 /\ z = f x y.
Proof.
  revert l2. induction l1 as [|x l1 IH]; intros [|y l2] H; simpl in H; try contradiction.
  destruct H as [<-|H].
  - exists x, y. simpl. auto.
  - destruct (IH l2 H) as [x' [y' [Hx [Hy E]]]]. exists x', y'. simpl. auto.
Qed.

Lemma blend_real_nonneg (w : R) (a b : list R) (z : R) :
  0 <= w <= 1 ->
  (forall x, In x a -> 0 <= x) -> (forall y, In y b -> 0 <= y) ->
  length a = length b -> rsum a = 1 -> rsum b = 1 ->
  In z (blend_real w a b) -> 0 <= z.
Proof.
  intros Hw Ha Hb Hl Hsa Hsb H. unfold blend_real in H.
  rewrite rsum_map2_blend, Hsa, Hsb in H by assumption.
  apply in_map_iff in H. destruct H as [t [<- Ht]].
  apply in_map2 in Ht. destruct Ht as [x [y [Hx [Hy ->]]]].
  specialize (Ha x Hx). specialize (Hb y Hy).
  replace ((1 - w) * 1 + w * 1) with 1 by ring.
  unfold Rdiv. rewrite Rinv_1, Rmult_1_r. nra.
Qed.

(** The two components of a steady-state date, in their forms over the
    reals. *)
Lemma rp_weights_at_form (st : MyPortfolio) (i : nat) :
  length (assets st) <> O ->
  rp_weights_of (volatilities_at st i) = repeat NaN (length (assets st)) \/
  exists vs, length vs = length (assets st) /\
             rp_weights_of (volatilities_at st i) = map Some (rp_real vs).
Proof.
  intros HN. unfold volatilities_at.
  set (win := iloc_slice (i - lookback st) i (asset_returns st)).
  rewrite frame_std_cases.
  destruct (Nat.ltb (length win) 2).
  - left. rewrite (map_NaN_op (fun s => fmul s (Some (sqrt 252)))) by reflexivity.
    apply rp_weights_NaN.
  - right.
    exists (map (fun j => std_real (column_of j win) * sqrt 252) (seq 0 (length (assets st)))).
    split; [now rewrite length_map, length_seq|].
    rewrite <- rp_weights_spec.
    + f_equal. rewrite !map_map. reflexivity.
    + destruct (length (assets st)); [congruence | discriminate].
Qed.

Lemma momentum_weights_at_form (st : MyPortfolio) (i : nat) :
  momentum_weights_of (mean_returns_at st i) = repeat NaN (length (assets st)) \/
  exists ms, length ms = length (assets st) /\ rsum (minmax_real ms) <> 0 /\
             momentum_weights_of (mean_returns_at st i) = map Some (momentum_real ms).
Proof.
  unfold mean_returns_at. rewrite frame_mean_cases.
  destruct (Nat.eqb _ 0).
  - left. apply momentum_weights_NaN.
  - set (ms := map _ (seq 0 (length (assets st)))).
    assert (Hl : length ms = length (assets st)).
    { unfold ms. now rewrite length_map, length_seq. }
    rewrite momentum_weights_spec.
    destruct (Req_EM_T (rsum (minmax_real ms)) 0) as [E|E].
    + left. now rewrite Hl.
    + right. exists ms. auto.
Qed.

Lemma steady_weights_nonneg (st : MyPortfolio) (i : nat) :
  length (assets st) <> O ->
  0 <= momentum_weight st <= 1 ->
  nonneg_series (steady_weights st i).
Proof.
  intros HN Hw x Hx. unfold steady_weights in Hx.
  destruct (rp_weights_at_form st i HN) as [Er|[vs [Hlv Er]]];
    destruct (momentum_weights_at_form st i) as [Em|[ms [Hlm [Hsm Em]]]];
    rewrite Er, Em in Hx.
  - rewrite blend_NaN_l in Hx by apply repeat_length. now apply not_in_repeat_NaN in Hx.
  - rewrite blend_NaN_l in Hx
      by (now rewrite length_map, momentum_real_length).
    now apply not_in_repeat_NaN in Hx.
  - rewrite blend_NaN_r in Hx by (now rewrite length_map, rp_real_length).
    now apply not_in_repeat_NaN in Hx.
  - assert (Hne : vs <> []) by (intros ->; simpl in Hlv; congruence).
    assert (Hlen : length (rp_real vs) = length (momentum_real ms))
      by (rewrite rp_real_length, momentum_real_length; congruence).
    rewrite blend_spec in Hx;
      [|exact Hlen | now apply rp_real_sum | now apply momentum_real_sum].
    apply in_map_Some in Hx.
    apply (blend_real_nonneg (momentum_weight st) (rp_real vs) (momentum_real ms)); auto.
    + intros y Hy. apply Rlt_le. now apply (rp_real_pos vs).
    + intros y Hy. now apply (momentum_real_nonneg ms).
    + now apply rp_real_sum.
    + now apply momentum_real_sum.
Qed.

Lemma raw_series_nonneg (st : MyPortfolio) (j : nat) :
  length (assets st) <> O ->
  0 <= momentum_weight st <= 1 ->
  nonneg_series (raw_series st (1 / INR (length (assets st))) j).
Proof.
  intros HN Hw. unfold raw_series. destruct (Nat.ltb j _).
  - intros x Hx. apply repeat_spec in Hx. injection Hx as ->.
    apply Rlt_le, Rdiv_lt_0_compat; [lra|]. apply lt_0_INR. lia.
  - now apply steady_weights_nonneg.
Qed.

Lemma ffill_row_nonneg (u v : list cell) :
  nonneg_series u -> nonneg_series v -> nonneg_series (ffill_row u v).
Proof.
  revert u. induction v as [|c v IH]; intros u Hu Hv x Hx; [contradiction|].
  cbn [ffill_row] in Hx. destruct u as [|p u].
  - rewrite ffill_row_nil in Hx. now apply Hv.
  - destruct Hx as [E|Hx].
    + destruct c as [y|]; cbn [ffill_cell] in E.
      * apply Hv. left. exact E.
      * apply Hu. left. exact E.
    + apply (IH u); auto.
      * intros y Hy. apply Hu. now right.
      * intros y Hy. apply Hv. now right.
Qed.

Lemma ffill_from_nonneg (u : list cell) (vs : list (date * list cell)) :
  nonneg_series u ->
  (forall dv, In dv vs -> nonneg_series (snd dv)) ->
  forall dv, In dv (ffill_from u vs) -> nonneg_series (snd dv).
Proof.
  revert u. induction vs as [|[d v] vs IH]; intros u Hu Hvs dv Hin; [contradiction|].
  cbn [ffill_from] in Hin.
  assert (Hf : nonneg_series (ffill_row u v)).
  { apply ffill_row_nonneg; [exact Hu|]. apply (Hvs (d, v)). now left. }
  destruct Hin as [<-|Hin]; [exact Hf|].
  apply (IH (ffill_row u v)); auto. intros dv' H. apply Hvs. now right.
Qed.

Lemma final_series_nonneg (st : MyPortfolio) (dv : date * list cell) :
  length (assets st) <> O ->
  0 <= momentum_weight st <= 1 ->
  In dv (final_series st) -> nonneg_series (snd dv).
Proof.
  intros HN Hw. unfold final_series. rewrite in_map_iff.
  intros [[d v] [<- Hin]]. cbn [fst snd].
  assert (Hv : nonneg_series v).
  { apply (ffill_from_nonneg [] (dated_series st (1 / INR (length (assets st))))
                              (fun _ H => match H with end)) in Hin; auto.
    intros dv. unfold dated_series. rewrite in_map_iff. intros [j [<- _]].
    cbn [snd]. now apply raw_series_nonneg. }
  intros x Hx. apply in_map_iff in Hx. destruct Hx as [c [E Hc]].
  unfold zero_fill in E. destruct c as [y|]; cbn [fillna] in E; injection E as <-.
  - now apply Hv.
  - lra.
Qed.

Lemma in_le_rsum (l : list R) (x : R) :
  (forall y, In y l -> 0 <= y) -> In x l -> x <= rsum l.
Proof.
  induction l as [|y l IH]; intros Hnn Hx; [contradiction|]. simpl.
  assert (0 <= y) by (apply Hnn; now left).
  assert (0 <= rsum l) by (apply rsum_nonneg; intros; apply Hnn; now right).
  destruct Hx as [<-|Hx]; [lra|].
  assert (x <= rsum l) by (apply IH; auto; intros; apply Hnn; now right). lra.
Qed.

(** The asset weights of a row of the weight table, when the blend weight
    is between 0 and 1: numbers that are not negative and sum to 1 or are
    all zero. *)
Lemma weights_table_row_long_only (st : MyPortfolio) (d : date) (row : list cell) :
  length (assets st) <> O ->
  0 <= momentum_weight st <= 1 ->
  In (d, row) (rows (weights_table st)) ->
  exists ws,
    row = shape (exclude st) (columns (price st)) (map Some ws) /\
    length ws = length (assets st) /\
    (forall x, In x ws -> 0 <= x) /\
    (rsum ws = 1 \/ rsum ws = 0).
Proof.
  intros HN Hw Hin.
  destruct (weights_table_row st d row Hin) as [v [Hv ->]].
  pose proof (final_series_nonneg st (d, v) HN Hw Hv) as Hnn. cbn [snd] in Hnn.
  destruct (final_series_cases st (d, v) HN Hv) as [[ws [E [Hl Hs]]]|E];
    cbn [snd] in E; subst v.
  - exists ws. repeat split; auto.
    intros x Hx. apply Hnn. now apply in_map.
  - exists (repeat 0 (length (assets st))). repeat split.
    + apply repeat_length.
    + intros x Hx. apply repeat_spec in Hx. lra.
    + right. rewrite rsum_repeat. ring.
Qed.

Lemma in_shape (ex : string) (cs : list string) (vals : list cell) (x : R) :
  In (Some x) (shape ex cs vals) -> x = 0 \/ In (Some x) vals.
Proof.
  revert vals. induction cs as [|c cs IH]; intros vals H; cbn [shape] in H; [contradiction|].
  destruct (String.eqb c ex).
  - destruct H as [E|H]; [injection E as <-; now left | now apply IH].
  - destruct vals as [|v vals].
    + destruct H as [E|H]; [discriminate|]. destruct (IH [] H) as [|[]]; now left.
    + destruct H as [E|H]; [right; left; exact E|].
      destruct (IH vals H); [now left | right; now right].
Qed.

(** Long only, no leverage: with a blend weight between 0 and 1, every
    cell of the weight table is a number between 0 and 1. *)
Theorem weights_between_zero_and_one (st : MyPortfolio) :
  In (exclude st) (columns (price st)) ->
  NoDup (index (price st)) ->
  length (assets st) <> O ->
  0 <= momentum_weight st <= 1 ->
  exists st' pw,
    calculate_weights st = Some st' /\
    portfolio_weights st' = Some pw /\
    forall d row c, In (d, row) (rows pw) -> In c row ->
      exists x, c = Some x /\ 0 <= x <= 1.
Proof.
  intros Hex Hnd HN Hw.
  eexists. exists (weights_table st).
  split; [now apply calculate_weights_table|].
  split; [reflexivity|].
  intros d row c Hin Hc.
  destruct (weights_table_row_long_only st d row HN Hw Hin) as [ws [-> [Hl [Hnn Hs]]]].
  destruct c as [x|].
  - exists x. split; [reflexivity|].
    destruct (in_shape _ _ _ _ Hc) as [->|Hx]; [lra|].
    apply in_map_Some in Hx. split; [now apply Hnn|].
    pose proof (in_le_rsum ws x Hnn Hx). destruct Hs; lra.
  - exfalso. apply (shape_numbers (exclude st) (columns (price st)) ws NaN); auto.
Qed.

Lemma weights_between_zero_and_one_witness :
  exists st' pw,
    calculate_weights example_portfolio = Some st' /\
    portfolio_weights st' = Some pw /\
    forall d row c, In (d, row) (rows pw) -> In c row ->
      exists x, c = Some x /\ 0 <= x <= 1.
Proof.
  apply (weights_between_zero_and_one example_portfolio).
  - exact example_excluded.
  - exact example_dates.
  - exact example_assets.
  - simpl. lra.
Defined.

(** ** [calculate_weights]: what the weights depend on *)

(** The weight table is computed from the dates and the column names of
    the prices, the parameters, and the returns of the non-excluded
    columns. *)
Lemma weights_table_ext (st1 st2 : MyPortfolio) :
  columns (price st1) = columns (price st2) ->
  index (price st1) = index (price st2) ->
  exclude st1 = exclude st2 ->
  lookback st1 = lookback st2 ->
  momentum_window st1 = momentum_window st2 ->
  momentum_weight st1 = momentum_weight st2 ->
  asset_returns st1 = asset_returns st2 ->
  weights_table st1 = weights_table st2.
Proof.
  intros Hc Hi He Hl Hm Hw Hr.
  assert (Hmask : assets_mask st1 = assets_mask st2).
  { unfold assets_mask. now rewrite Hc, He. }
  assert (Ha : assets st1 = assets st2).
  { unfold assets. now rewrite Hmask, Hc. }
  assert (Hlen : len (price st1) = len (price st2)).
  { unfold len. rewrite <- (length_map fst (rows (price st1))),
      <- (length_map fst (rows (price st2))).
    fold (index (price st1)). fold (index (price st2)). now rewrite Hi. }
  assert (Hs : forall i, steady_weights st1 i = steady_weights st2 i).
  { intros i. unfold steady_weights, volatilities_at, mean_returns_at.
    now rewrite Hl, Hm, Hw, Hr, Ha. }
  assert (Hraw : forall ew j, raw_series st1 ew j = raw_series st2 ew j).
  { intros ew j. unfold raw_series. now rewrite Hl, Hm, Ha, Hs. }
  unfold weights_table, final_series, dated_series.
  rewrite Hc, He, Hi, Hlen, Ha. do 4 f_equal.
  apply map_ext. intros j. now rewrite Hraw.
Qed.

(** The excluded column's returns are never read: two objects that differ
    only there store the same weight table. *)
Theorem weights_ignore_excluded_returns (st1 st2 : MyPortfolio) :
  In (exclude st1) (columns (price st1)) ->
  NoDup (index (price st1)) ->
  length (assets st1) <> O ->
  columns (price st1) = columns (price st2) ->
  index (price st1) = index (price st2) ->
  exclude st1 = exclude st2 ->
  lookback st1 = lookback st2 ->
  momentum_window st1 = momentum_window st2 ->
  momentum_weight st1 = momentum_weight st2 ->
  asset_returns st1 = asset_returns st2 ->
  exists st1' st2' pw,
    calculate_weights st1 = Some st1' /\
    calculate_weights st2 = Some st2' /\
    portfolio_weights st1' = Some pw /\
    portfolio_weights st2' = Some pw.
Proof.
  intros Hex Hnd HN Hc Hi He Hl Hm Hw Hr.
  assert (Ha : assets st1 = assets st2).
  { unfold assets, assets_mask. now rewrite Hc, He. }
  eexists. eexists. exists (weights_table st1).
  split; [now apply calculate_weights_table|].
  split.
  - apply calculate_weights_table.
    + now rewrite <- He, <- Hc.
    + now rewrite <- Hi.
    + now rewrite <- Ha.
  - split; [reflexivity|]. cbn [portfolio_weights]. f_equal.
    symmetry. now apply weights_table_ext.
Qed.

Lemma weights_ignore_excluded_returns_witness :
  exists st1' st2' pw,
    calculate_weights example_portfolio = Some st1' /\
    calculate_weights other_benchmark_portfolio = Some st2' /\
    portfolio_weights st1' = Some pw /\
    portfolio_weights st2' = Some pw.
Proof.
  apply (weights_ignore_excluded_returns example_portfolio other_benchmark_portfolio).
  - exact example_excluded.
  - exact example_dates.
  - exact example_assets.
  - reflexivity.
  - reflexivity.
  - reflexivity.
  - reflexivity.
  - reflexivity.
  - reflexivity.
  - reflexivity.
Defined.

(** ** [calculate_portfolio_returns]: the sign of the portfolio return *)

(** What [calculate_portfolio_returns] stores on an object without
    weights. *)
Lemma calculate_portfolio_returns_value (st : MyPortfolio) :
  In (exclude st) (columns (price st)) ->
  NoDup (index (price st)) ->
  length (assets st) <> O ->
  portfolio_weights st = None ->
  calculate_portfolio_returns st =
  Some (mkPortfolio (price st) (returns st) (exclude st) (lookback st)
          (momentum_window st) (momentum_weight st)
          (Some (weights_table st))
          (Some (set_column "Portfolio" (portfolio_series st (weights_table st))
                            (returns st)))).
Proof.
  intros Hex Hnd HN Hnone. unfold calculate_portfolio_returns.
  rewrite Hnone, calculate_weights_table by assumption. reflexivity.
Qed.

Lemma nth_error_map2 {A B C : Type} (f : A -> B -> C) (l1 : list A) (l2 : list B)
    (t : nat) (x : A) (y : B) :
  nth_error l1 t = Some x -> nth_error l2 t = Some y ->
  nth_error (map2 f l1 l2) t = Some (f x y).
Proof.
  revert l2 t. induction l1 as [|a l1 IH]; intros [|b l2] [|t] H1 H2;
    simpl in *; try discriminate.
  - now injection H1 as ->; injection H2 as ->.
  - now apply IH.
Qed.

Lemma portfolio_series_nth (st : MyPortfolio) (pw : DataFrame cell)
    (t : nat) (d : date) (r : list R) :
  nth_error (rows (returns st)) t = Some (d, r) ->
  nth_error (portfolio_series st pw) t =
  Some (match lookup_row d (rows pw) with
        | Some w => rsum (valid (map2 fmul (map Some (pick (assets_mask st) r))
                                           (pick (assets_mask st) w)))
        | None => 0
        end).
Proof.
  intros H. unfold portfolio_series, mul_aligned.
  rewrite map_map, nth_error_map, H. cbn [option_map fst snd]. f_equal.
  destruct (lookup_row d (rows pw)); cbn [snd]; [reflexivity|].
  now rewrite valid_all_NaN.
Qed.

Lemma set_column_new_nth {A : Type} (name : string) (vals : list A) (df : DataFrame A)
    (t : nat) (d : date) (r : list A) (v : A) :
  ~ In name (columns df) ->
  nth_error (rows df) t = Some (d, r) ->
  nth_error vals t = Some v ->
  nth_error (rows (set_column name vals df)) t = Some (d, r ++ [v]).
Proof.
  intros Hn Hr Hv. unfold set_column. rewrite (existsb_eqb_notin _ _ Hn).
  cbn [rows]. now rewrite (nth_error_map2 _ _ _ t (d, r) v Hr Hv).
Qed.

(** A sum of returns times weights, for weights that are not negative,
    has the sign that the returns share. *)
Lemma weighted_sum_nonneg (rs ws : list R) :
  (forall x, In x ws -> 0 <= x) ->
  (forall x, In x rs -> 0 <= x) ->
  0 <= rsum (map2 Rmult rs ws).
Proof.
  revert ws. induction rs as [|r rs IH]; intros [|w ws] Hw Hr; simpl; try lra.
  assert (0 <= w) by (apply Hw; now left).
  assert (0 <= r) by (apply Hr; now left).
  assert (0 <= rsum (map2 Rmult rs ws)).
  { apply IH; [intros; apply Hw; now right | intros; apply Hr; now right]. }
  nra.
Qed.

Lemma weighted_sum_nonpos (rs ws : list R) :
  (forall x, In x ws -> 0 <= x) ->
  (forall x, In x rs -> x <= 0) ->
  rsum (map2 Rmult rs ws) <= 0.
Proof.
  revert ws. induction rs as [|r rs IH]; intros [|w ws] Hw Hr; simpl; try lra.
  assert (0 <= w) by (apply Hw; now left).
  assert (r <= 0) by (apply Hr; now left).
  assert (rsum (map2 Rmult rs ws) <= 0).
  { apply IH; [intros; apply Hw; now right | intros; apply Hr; now right]. }
  nra.
Qed.

(** Long only: with a blend weight between 0 and 1, on a date where no
    non-excluded column has a negative return the portfolio return is not
    negative, and on a date where none has a positive return it is not
    positive. *)
Theorem portfolio_return_sign
    (st : MyPortfolio) (t : nat) (d : date) (r : list R) :
  In (exclude st) (columns (price st)) ->
  NoDup (index (price st)) ->
  length (assets st) <> O ->
  portfolio_weights st = None ->
  ~ In "Portfolio"%string (columns (returns st)) ->
  0 <= momentum_weight st <= 1 ->
  nth_error (rows (returns st)) t = Some (d, r) ->
  exists st' pr v,
    calculate_portfolio_returns st = Some st' /\
    portfolio_returns st' = Some pr /\
    nth_error (rows pr) t = Some (d, r ++ [v]) /\
    ((forall x, In x (pick (assets_mask st) r) -> 0 <= x) -> 0 <= v) /\
    ((forall x, In x (pick (assets_mask st) r) -> x <= 0) -> v <= 0).
Proof.
  intros Hex Hnd HN Hnone Hcol Hw Ht.
  eexists. eexists. eexists.
  split; [now apply calculate_portfolio_returns_value|].
  cbn [portfolio_returns]. split; [reflexivity|]. split.
  - apply set_column_new_nth; [exact Hcol | exact Ht|].
    apply (portfolio_series_nth st _ t d r Ht).
  - destruct (lookup_row d (rows (weights_table st))) as [w|] eqn:Hlook; [|split; lra].
    pose proof (lookup_row_In _ _ _ Hlook) as Hin.
    destruct (weights_table_row_long_only st d w HN Hw Hin) as [ws [-> [Hl [Hnn _]]]].
    assert (Hpick : pick (assets_mask st)
                      (shape (exclude st) (columns (price st)) (map Some ws)) = map Some ws).
    { apply (pick_shape (exclude st) (columns (price st))). now rewrite length_map. }
    rewrite Hpick, valid_products.
    split; intros Hr.
    + now apply weighted_sum_nonneg.
    + now apply weighted_sum_nonpos.
Qed.

Lemma example_returns_row :
  nth_error (rows (returns example_portfolio)) 2
  = Some (2%nat, [102 / 101 - 1; 12 / 11 - 1; 21 / 20 - 1]).
Proof.
  cbn -[Rdiv Rminus]. now rewrite !pct_cell_value by lra.
Qed.

Lemma portfolio_return_sign_witness :
  exists st' pr v,
    calculate_portfolio_returns example_portfolio = Some st' /\
    portfolio_returns st' = Some pr /\
    nth_error (rows pr) 2
    = Some (2%nat, [102 / 101 - 1; 12 / 11 - 1; 21 / 20 - 1] ++ [v]) /\
    ((forall x, In x (pick (assets_mask example_portfolio)
                           [102 / 101 - 1; 12 / 11 - 1; 21 / 20 - 1]) -> 0 <= x) ->
     0 <= v) /\
    ((forall x, In x (pick (assets_mask example_portfolio)
                           [102 / 101 - 1; 12 / 11 - 1; 21 / 20 - 1]) -> x <= 0) ->
     v <= 0).
Proof.
  apply (portfolio_return_sign example_portfolio 2 2%nat
           [102 / 101 - 1; 12 / 11 - 1; 21 / 20 - 1]).
  - exact example_excluded.
  - exact example_dates.
  - exact example_assets.
  - reflexivity.
  - simpl. intuition discriminate.
  - simpl. lra.
  - exact example_returns_row.
Defined.

(** ** The two components in closed form *)








(** When no asset's annualized volatility is above the floor [1e-6], the
    risk-parity weights are the equal weight. *)
Theorem rp_weights_equal_under_floor (vs : list R) :
  vs <> [] ->
  (forall v, In v vs -> v <= eps) ->
  rp_weights_of (map Some vs)
  = repeat (Some (1 / INR (length vs))) (length vs).
Proof.
  intros Hne Hv. rewrite (rp_weights_spec vs Hne). unfold rp_real.
  assert (E : map (fun v => 1 / Rmax v eps) vs = repeat (1 / eps) (length vs)).
  { rewrite <- map_const_repeat. apply map_ext_in. intros v Hin.
    rewrite Rmax_right by (now apply Hv). reflexivity. }
  pose proof eps_pos.
  assert (INR (length vs) <> 0).
  { apply not_0_INR. destruct vs; [congruence | discriminate]. }
  rewrite E, rsum_repeat, !map_repeat. do 2 f_equal. field. split; lra.
Qed.

Lemma rp_weights_equal_under_floor_witness :
  rp_weights_of (map Some [0; 0; 0])
  = repeat (Some (1 / INR (length [0; 0; 0]))) (length [0; 0; 0]).
Proof.
  apply (rp_weights_equal_under_floor [0; 0; 0]).
  - discriminate.
  - intros v [<-|[<-|[<-|[]]]]; unfold eps; lra.
Defined.

(** ** [__init__]: the returns of a table of positive prices *)

(** On a table of positive prices without missing cells, [__init__]
    stores the table itself as the prices, and the returns table has its
    dates and columns, a first row of zeros, and in each later row, under
    each column, the price over the price of the date above, minus one. *)
Theorem returns_of_complete_prices (price0 : DataFrame cell) (ex : string)
    (l m : nat) (w : R) :
  no_missing price0 ->
  positive_prices price0 ->
  price (init price0 ex l m w) = price0 /\
  index (returns (init price0 ex l m w)) = index (price (init price0 ex l m w)) /\
  columns (returns (init price0 ex l m w)) = columns (price (init price0 ex l m w)) /\
  (forall d r, nth_error (rows price0) 0 = Some (d, r) ->
     nth_error (rows (returns (init price0 ex l m w))) 0
     = Some (d, map (fun _ => 0) r)) /\
  (forall t d0 r0 d1 r1,
     nth_error (rows price0) t = Some (d0, r0) ->
     nth_error (rows price0) (S t) = Some (d1, r1) ->
     exists ret,
       nth_error (rows (returns (init price0 ex l m w))) (S t) = Some (d1, ret) /\
       forall k a b,
         nth_error r0 k = Some (Some a) ->
         nth_error r1 k = Some (Some b) ->
         nth_error ret k = Some (b / a - 1)).
Proof.
  intros Hc Hpos.
  destruct (returns_of_complete_rows price0 ex l m w Hc) as [Hp [Hi [Hcol [H0 Hs]]]].
  split; [exact Hp|]. split; [exact Hi|]. split; [exact Hcol|]. split; [exact H0|].
  intros t d0 r0 d1 r1 Ht0 Ht1.
  exists (map2 (fun a b => fillna 0 (pct_cell a b)) r0 r1).
  split; [now apply (Hs t d0 r0 d1 r1)|].
  intros k a b Ha Hb.
  rewrite (nth_error_map2 _ r0 r1 k (Some a) (Some b) Ha Hb). f_equal.
  apply pct_cell_value.
  assert (0 < a); [|lra].
  apply (Hpos d0 r0 a).
  - eapply nth_error_In. exact Ht0.
  - eapply nth_error_In. exact Ha.
Qed.

Lemma example_price_positive : positive_prices example_price.
Proof.
  intros d row x [E|[E|[E|[E|[]]]]] Hx; injection E as <- <-;
    destruct Hx as [E|[E|[E|[]]]]; injection E as <-; lra.
Defined.

Lemma returns_of_complete_prices_witness :
  price (init example_price "SPY" 2 2 (1 / 2)) = example_price /\
  index (returns (init example_price "SPY" 2 2 (1 / 2)))
  = index (price (init example_price "SPY" 2 2 (1 / 2))) /\
  columns (returns (init example_price "SPY" 2 2 (1 / 2)))
  = columns (price (init example_price "SPY" 2 2 (1 / 2))) /\
  (forall d r, nth_error (rows example_price) 0 = Some (d, r) ->
     nth_error (rows (returns (init example_price "SPY" 2 2 (1 / 2)))) 0
     = Some (d, map (fun _ => 0) r)) /\
  (forall t d0 r0 d1 r1,
     nth_error (rows example_price) t = Some (d0, r0) ->
     nth_error (rows example_price) (S t) = Some (d1, r1) ->
     exists ret,
       nth_error (rows (returns (init example_price "SPY" 2 2 (1 / 2)))) (S t)
       = Some (d1, ret) /\
       forall k a b,
         nth_error r0 k = Some (Some a) ->
         nth_error r1 k = Some (Some b) ->
         nth_error ret k = Some (b / a - 1)).
Proof.
  apply (returns_of_complete_prices example_price "SPY" 2 2 (1 / 2)).
  - intros r [<-|[<-|[<-|[<-|[]]]]]; reflexivity.
  - exact example_price_positive.
Defined.

(** ** [cumulative_product]: the running product of the returns *)









(** ** [plot_allocation]: the table that is plotted *)

Lemma zero_filled_complete (r : list cell) :
  existsb is_nan (map (fun c => Some (fillna 0 c)) r) = false.
Proof. induction r as [|c r IH]; simpl; auto. Qed.

(** [plot_allocation] plots the table with every NaN and every negative
    number replaced by 0 and every other number kept: after the zero fill
    its forward fill finds nothing to fill.  The plotted table has no NaN
    and no negative number. *)
Theorem plot_allocation_cells (df_weights : DataFrame cell) :
  plot_allocation df_weights
  = mkFrame (columns df_weights)
            (map (fun r => (fst r, map allocation_cell (snd r))) (rows df_weights)) /\
  forall d row c, In (d, row) (rows (plot_allocation df_weights)) -> In c row ->
    exists x, c = Some x /\ 0 <= x.
Proof.
  assert (E : plot_allocation df_weights
              = mkFrame (columns df_weights)
                  (map (fun r => (fst r, map allocation_cell (snd r))) (rows df_weights))).
  { unfold plot_allocation, ffill, fillna_inplace. cbn [columns rows].
    rewrite ffill_from_complete.
    - rewrite map_map. cbn [fst snd]. f_equal. apply map_ext. intros [d r]. cbn [fst snd].
      f_equal. rewrite map_map. apply map_ext. intros [x|]; [reflexivity|].
      cbn [fillna clip_negative allocation_cell]. now destruct (Rlt_dec 0 0).
    - intros r. rewrite in_map_iff. intros [r0 [<- _]]. apply zero_filled_complete. }
  split; [exact E|].
  rewrite E. cbn [rows]. intros d row c Hin Hc.
  apply in_map_iff in Hin. destruct Hin as [[d0 r0] [E0 _]]. cbn [fst snd] in E0.
  injection E0 as _ <-.
  apply in_map_iff in Hc. destruct Hc as [c0 [<- _]].
  destruct c0 as [x|]; cbn [allocation_cell].
  - destruct (Rlt_dec x 0); eexists; split; try reflexivity; lra.
  - exists 0. split; [reflexivity | lra].
Qed.

Lemma plot_allocation_value (df_weights : DataFrame cell) :
  plot_allocation df_weights
  = mkFrame (columns df_weights)
            (map (fun r => (fst r, map allocation_cell (snd r))) (rows df_weights)).
Proof.
  unfold plot_allocation, ffill, fillna_inplace. cbn [columns rows].
  rewrite ffill_from_complete.
  - rewrite map_map. cbn [fst snd]. f_equal. apply map_ext. intros [d r]. cbn [fst snd].
    f_equal. rewrite map_map. apply map_ext. intros [x|]; [reflexivity|].
    cbn [fillna clip_negative allocation_cell]. now destruct (Rlt_dec 0 0).
  - intros r. rewrite in_map_iff. intros [r0 [<- _]]. apply zero_filled_complete.
Qed.

Lemma weights_table_cell_bounds (st : MyPortfolio) (d : date) (row : list cell) (c : cell) :
  length (assets st) <> O ->
  0 <= momentum_weight st <= 1 ->
  In (d, row) (rows (weights_table st)) -> In c row ->
  exists x, c = Some x /\ 0 <= x <= 1.
Proof.
  intros HN Hw Hin Hc.
  destruct (weights_table_row_long_only st d row HN Hw Hin) as [ws [-> [Hl [Hnn Hs]]]].
  destruct c as [x|].
  - exists x. split; [reflexivity|].
    destruct (in_shape _ _ _ _ Hc) as [->|Hx]; [lra|].
    apply in_map_Some in Hx. split; [now apply Hnn|].
    pose proof (in_le_rsum ws x Hnn Hx). destruct Hs; lra.
  - exfalso. apply (shape_numbers (exclude st) (columns (price st)) ws NaN); auto.
Qed.

(** With a blend weight between 0 and 1, [plot_allocation] plots the
    weight table of [calculate_weights] as it is: nothing is filled and
    nothing is cut. *)
Theorem plot_allocation_keeps_weights (st : MyPortfolio) :
  In (exclude st) (columns (price st)) ->
  NoDup (index (price st)) ->
  length (assets st) <> O ->
  0 <= momentum_weight st <= 1 ->
  exists st' pw,
    calculate_weights st = Some st' /\
    portfolio_weights st' = Some pw /\
    plot_allocation pw = pw.
Proof.
  intros Hex Hnd HN Hw.
  eexists. exists (weights_table st).
  split; [now apply calculate_weights_table|].
  split; [reflexivity|].
  rewrite plot_allocation_value.
  rewrite <- (frame_eta (weights_table st)) at 3. f_equal.
  rewrite <- (map_id (rows (weights_table st))) at 2.
  apply map_ext_in. intros [d row] Hin. cbn [fst snd]. f_equal.
  rewrite <- (map_id row) at 2. apply map_ext_in. intros c Hc.
  destruct (weights_table_cell_bounds st d row c HN Hw Hin Hc) as [x [-> Hx]].
  cbn [allocation_cell]. destruct (Rlt_dec x 0); [lra | reflexivity].
Qed.

Lemma plot_allocation_keeps_weights_witness :
  exists st' pw,
    calculate_weights example_portfolio = Some st' /\
    portfolio_weights st' = Some pw /\
    plot_allocation pw = pw.
Proof.
  apply (plot_allocation_keeps_weights example_portfolio).
  - exact example_excluded.
  - exact example_dates.
  - exact example_assets.
  - simpl. lra.
Defined.

(** ** The judge: the threshold checks *)

Lemma check_all_answer_value
    (qs_stats_sharpe : DataFrame cell -> list cell) (df Bdf : DataFrame cell)
    (self : AssignmentJudge) (sharpe sharpe_b : list cell) (mp1 b1 b0 : cell) :
  report_metrics qs_stats_sharpe df (mp self) = Some sharpe ->
  nth_error sharpe 1 = Some mp1 ->
  report_metrics qs_stats_sharpe Bdf (Bmp self) = Some sharpe_b ->
  nth_error sharpe_b 1 = Some b1 ->
  nth_error sharpe_b 0 = Some b0 ->
  check_all_answer qs_stats_sharpe df Bdf self =
  ([threshold_line (position_ok self) (fgtb mp1 (Some 1))
      "Problem 4.1 Success - Get 15 points" "Problem 4.1 Fail";
    threshold_line (position_ok self) (fgtb b1 b0)
      "Problem 4.2 Success - Get 15 points" "Problem 4.2 Fail"],
   Some (Nat.add (threshold_score (position_ok self) (fgtb mp1 (Some 1)))
                 (threshold_score (position_ok self) (fgtb b1 b0)))).
Proof.
  intros Hr Hn Hrb Hn1 Hn0. unfold check_all_answer.
  rewrite (greater_than_one_value _ _ _ _ _ Hr Hn).
  rewrite (greater_than_spy_value _ _ _ _ _ _ Hrb Hn1 Hn0).
  unfold threshold_line, threshold_score.
  destruct (position_ok self), (fgtb mp1 (Some 1)), (fgtb b1 b0); reflexivity.
Qed.

(** The total of [check_all_answer], when the Sharpe ratios are available:
    15 for each threshold check whose comparison holds if the position
    check passes, 0 otherwise, after exactly one printed line per check. *)
Theorem check_all_answer_total
    (qs_stats_sharpe : DataFrame cell -> list cell) (df Bdf : DataFrame cell)
    (self : AssignmentJudge) (sharpe sharpe_b : list cell) (mp1 b1 b0 : cell) :
  report_metrics qs_stats_sharpe df (mp self) = Some sharpe ->
  nth_error sharpe 1 = Some mp1 ->
  report_metrics qs_stats_sharpe Bdf (Bmp self) = Some sharpe_b ->
  nth_error sharpe_b 1 = Some b1 ->
  nth_error sharpe_b 0 = Some b0 ->
  check_all_answer qs_stats_sharpe df Bdf self =
  ([threshold_line (position_ok self) (fgtb mp1 (Some 1))
      "Problem 4.1 Success - Get 15 points" "Problem 4.1 Fail";
    threshold_line (position_ok self) (fgtb b1 b0)
      "Problem 4.2 Success - Get 15 points" "Problem 4.2 Fail"],
   Some (Nat.add (threshold_score (position_ok self) (fgtb mp1 (Some 1)))
                 (threshold_score (position_ok self) (fgtb b1 b0)))).
Proof.
  intros Hr Hn Hrb Hn1 Hn0. unfold check_all_answer.
  rewrite (greater_than_one_value _ _ _ _ _ Hr Hn).
  rewrite (greater_than_spy_value _ _ _ _ _ _ Hrb Hn1 Hn0).
  unfold threshold_line, threshold_score.
  destruct (position_ok self), (fgtb mp1 (Some 1)), (fgtb b1 b0); reflexivity.
Qed.

Lemma check_all_answer_total_witness :
  check_all_answer example_sharpe example_price example_price example_judge =
  ([threshold_line (position_ok example_judge) (fgtb (Some 2) (Some 1))
      "Problem 4.1 Success - Get 15 points" "Problem 4.1 Fail";
    threshold_line (position_ok example_judge) (fgtb (Some 2) (Some (1 / 2)))
      "Problem 4.2 Success - Get 15 points" "Problem 4.2 Fail"],
   Some (Nat.add (threshold_score (position_ok example_judge) (fgtb (Some 2) (Some 1)))
                 (threshold_score (position_ok example_judge)
                                  (fgtb (Some 2) (Some (1 / 2)))))).
Proof.
  apply (check_all_answer_total example_sharpe example_price example_price
           example_judge [Some (1 / 2); Some 2] [Some (1 / 2); Some 2]); reflexivity.
Defined.

(** When the position check fails, both threshold checks return 0 having
    printed the position message only, and [check_all_answer] returns 0
    having printed it twice: the Sharpe ratios are not computed, so no
    exception of [report_metrics] can escape. *)
Theorem failed_position_scores_zero
    (qs_stats_sharpe : DataFrame cell -> list cell) (df Bdf : DataFrame cell)
    (self : AssignmentJudge) :
  position_ok self = false ->
  check_sharp_ratio_greater_than_one qs_stats_sharpe df self
  = ([position_message], Some 0%nat) /\
  check_sharp_ratio_greater_than_spy qs_stats_sharpe Bdf self
  = ([position_message], Some 0%nat) /\
  check_all_answer qs_stats_sharpe df Bdf self
  = ([position_message; position_message], Some 0%nat).
Proof.
  intros Hp.
  assert (E1 : check_sharp_ratio_greater_than_one qs_stats_sharpe df self
               = ([position_message], Some 0%nat)).
  { unfold check_sharp_ratio_greater_than_one. rewrite position_check_value, Hp. reflexivity. }
  assert (E2 : check_sharp_ratio_greater_than_spy qs_stats_sharpe Bdf self
               = ([position_message], Some 0%nat)).
  { unfold check_sharp_ratio_greater_than_spy. rewrite position_check_value, Hp. reflexivity. }
  split; [exact E1|]. split; [exact E2|].
  unfold check_all_answer. rewrite E1, E2. reflexivity.
Qed.

Lemma leveraged_judge_position : position_ok leveraged_judge = false.
Proof.
  unfold position_ok. cbn -[Rdiv]. unfold fleb.
  destruct (Rle_dec (0 + (1 + (1 + 0))) (101 / 100)); [lra | reflexivity].
Defined.

Lemma failed_position_scores_zero_witness :
  check_sharp_ratio_greater_than_one example_sharpe example_price leveraged_judge
  = ([position_message], Some 0%nat) /\
  check_sharp_ratio_greater_than_spy example_sharpe example_price leveraged_judge
  = ([position_message], Some 0%nat) /\
  check_all_answer example_sharpe example_price example_price leveraged_judge
  = ([position_message; position_message], Some 0%nat).
Proof.
  apply (failed_position_scores_zero example_sharpe example_price example_price
           leveraged_judge).
  exact leveraged_judge_position.
Defined.

(** ** The judge's own tables *)

Lemma NoDup_index_filter {A : Type} (f : date * list A -> bool) (l : list (date * list A)) :
  NoDup (map fst l) -> NoDup (map fst (filter f l)).
Proof.
  induction l as [|a l IH]; cbn [map filter]; intros H; [constructor|].
  apply NoDup_cons_iff in H. destruct H as [Hn Hd].
  destruct (f a); [|now apply IH].
  cbn [map]. constructor; [|now apply IH].
  intros Hin. apply Hn. apply in_map_iff in Hin. destruct Hin as [b [E Hb]].
  apply filter_In in Hb. apply in_map_iff. exists b. tauto.
Qed.

(** What [get_results] returns on an object just built. *)
Lemma get_results_value (st : MyPortfolio) :
  In (exclude st) (columns (price st)) ->
  NoDup (index (price st)) ->
  length (assets st) <> O ->
  portfolio_weights st = None ->
  portfolio_returns st = None ->
  get_results st =
  Some (weights_table st,
        set_column "Portfolio" (portfolio_series st (weights_table st)) (returns st)).
Proof.
  intros Hex Hnd HN Hw Hr. unfold get_results.
  rewrite Hr, calculate_portfolio_returns_value by assumption. reflexivity.
Qed.

Lemma judge_portfolio_results (T : DataFrame cell) :
  usable_table T ->
  get_results (judge_portfolio T) =
  Some (weights_table (judge_portfolio T),
        set_column "Portfolio"
          (portfolio_series (judge_portfolio T) (weights_table (judge_portfolio T)))
          (returns (judge_portfolio T))) /\
  check_portfolio_position (weights_table (judge_portfolio T)) = ([], Some true).
Proof.
  intros [_ [Hspy [Hnd [c [Hc Hne]]]]].
  assert (HN : length (assets (judge_portfolio T)) <> O).
  { intros H0. apply Hne.
    apply (proj1 (assets_empty_iff (judge_portfolio T)) H0 c). exact Hc. }
  split.
  - apply get_results_value; auto.
    unfold judge_portfolio, init, dropna, index. cbn [price rows].
    now apply NoDup_index_filter.
  - apply check_portfolio_position_true. intros d row Hin.
    destruct (weights_table_row_sum (judge_portfolio T) d row HN Hin); lra.
Qed.

(** For downloaded tables of positive prices with distinct dates, a
    column SPY and another column, [AssignmentJudge.__init__] returns, and
    the weight tables it stores pass the position check: for the judge's
    own tables the threshold checks never stop at the position message. *)
Theorem judge_tables_pass_position_check (df Bdf : DataFrame cell) :
  usable_table df -> usable_table Bdf ->
  exists judge,
    judge_init df Bdf = Some judge /\
    fst (mp judge) = weights_table (judge_portfolio df) /\
    fst (Bmp judge) = weights_table (judge_portfolio Bdf) /\
    position_ok judge = true /\
    check_portfolio_position (fst (Bmp judge)) = ([], Some true).
Proof.
  intros H1 H2.
  destruct (judge_portfolio_results df H1) as [E1 P1].
  destruct (judge_portfolio_results Bdf H2) as [E2 P2].
  unfold judge_init. fold (judge_portfolio df). fold (judge_portfolio Bdf).
  rewrite E1, E2. eexists. split; [reflexivity|].
  cbn [mp Bmp fst]. split; [reflexivity|]. split; [reflexivity|].
  split; [|exact P2].
  pose proof (position_check_value
                (mkJudge (weights_table (judge_portfolio df),
                          set_column "Portfolio"
                            (portfolio_series (judge_portfolio df)
                               (weights_table (judge_portfolio df)))
                            (returns (judge_portfolio df)))
                         (weights_table (judge_portfolio Bdf),
                          set_column "Portfolio"
                            (portfolio_series (judge_portfolio Bdf)
                               (weights_table (judge_portfolio Bdf)))
                            (returns (judge_portfolio Bdf))))) as Hv.
  cbn [mp fst] in Hv. rewrite P1 in Hv.
  destruct (position_ok _); [reflexivity | discriminate].
Qed.

Lemma example_price_usable : usable_table example_price.
Proof.
  split; [exact example_price_positive|].
  split; [simpl; auto|]. split.
  - simpl. repeat constructor; simpl; intuition discriminate.
  - exists "XLB"%string. split; [simpl; auto | discriminate].
Defined.

Lemma judge_tables_pass_position_check_witness :
  exists judge,
    judge_init example_price example_price = Some judge /\
    fst (mp judge) = weights_table (judge_portfolio example_price) /\
    fst (Bmp judge) = weights_table (judge_portfolio example_price) /\
    position_ok judge = true /\
    check_portfolio_position (fst (Bmp judge)) = ([], Some true).
Proof.
  apply (judge_tables_pass_position_check example_price example_price).
  - exact example_price_usable.
  - exact example_price_usable.
Defined.

(** ** The score flag *)

Lemma among_without_all (tok : string) (toks : list string) :
  String.eqb "all" tok = false -> among tok (without_all toks) = among tok toks.
Proof.
  intros Hne. unfold among, without_all.
  induction toks as [|t toks IH]; [reflexivity|].
  cbn [filter existsb]. destruct (String.eqb "all" t) eqn:E; cbn [negb existsb].
  - apply String.eqb_eq in E. subst t.
    rewrite String.eqb_sym, Hne. exact IH.
  - now rewrite IH.
Qed.

Lemma bind_lines {A B : Type} (m : M A) (f : A -> M B) (line : string) :
  In line (fst (bind m f)) ->
  In line (fst m) \/ exists x, In line (fst (f x)).
Proof.
  destruct m as [o [x|]]; cbn [bind fst]; [|auto].
  destruct (f x) as [o' r] eqn:E. cbn [fst]. intros H.
  apply in_app_or in H. destruct H as [H|H]; [now left|].
  right. exists x. now rewrite E.
Qed.

(** Neither threshold check prints a line that announces a total. *)
Lemma check_one_lines
    (qs_stats_sharpe : DataFrame cell -> list cell) (df : DataFrame cell)
    (self : AssignmentJudge) (line : string) :
  In line (fst (check_sharp_ratio_greater_than_one qs_stats_sharpe df self)) ->
  total_line line = false.
Proof.
  unfold check_sharp_ratio_greater_than_one. rewrite position_check_value.
  destruct (position_ok self); cbn [bind negb app fst lift ret print].
  - destruct (report_metrics qs_stats_sharpe df (mp self)) as [sharpe|];
      cbn [bind app fst lift]; [|intros []].
    destruct (nth_error sharpe 1) as [s1|]; cbn [bind app fst]; [|intros []].
    destruct (fgtb s1 (Some 1)); cbn [bind app fst print ret];
      intros [<-|[]]; reflexivity.
  - intros [<-|[]]; reflexivity.
Qed.

Lemma check_spy_lines
    (qs_stats_sharpe : DataFrame cell -> list cell) (Bdf : DataFrame cell)
    (self : AssignmentJudge) (line : string) :
  In line (fst (check_sharp_ratio_greater_than_spy qs_stats_sharpe Bdf self)) ->
  total_line line = false.
Proof.
  unfold check_sharp_ratio_greater_than_spy. rewrite position_check_value.
  destruct (position_ok self); cbn [bind negb app fst lift ret print].
  - destruct (report_metrics qs_stats_sharpe Bdf (Bmp self)) as [sharpe|];
      cbn [bind app fst lift]; [|intros []].
    destruct (nth_error sharpe 1) as [s1|]; cbn [bind app fst]; [|intros []].
    destruct (nth_error sharpe 0) as [s0|]; cbn [bind app fst]; [|intros []].
    destruct (fgtb s1 s0); cbn [bind app fst print ret];
      intros [<-|[]]; reflexivity.
  - intros [<-|[]]; reflexivity.
Qed.

(** With [one] or [spy] among the tokens of [--score], the token [all] has
    no effect wherever it stands and however often: the run prints and
    returns what it does for the tokens without it, and no printed line
    announces a total. *)
Theorem score_all_ignored_beside_one_or_spy
    (qs_stats_sharpe : DataFrame cell -> list cell) (df Bdf : DataFrame cell)
    (judge : AssignmentJudge) (toks : list string) :
  among "one" toks || among "spy" toks = true ->
  main_score qs_stats_sharpe df Bdf judge (Some toks)
  = main_score qs_stats_sharpe df Bdf judge (Some (without_all toks)) /\
  (forall line,
     In line (fst (main_score qs_stats_sharpe df Bdf judge (Some toks))) ->
     total_line line = false).
Proof.
  intros H.
  assert (H1 : among "one" (without_all toks) = among "one" toks)
    by (now apply among_without_all).
  assert (H2 : among "spy" (without_all toks) = among "spy" toks)
    by (now apply among_without_all).
  assert (E : forall l, among "one" l || among "spy" l = true ->
            main_score qs_stats_sharpe df Bdf judge (Some l)
            = ((if among "one" l
                then check_sharp_ratio_greater_than_one qs_stats_sharpe df judge ;;; ret tt
                else ret tt) ;;;
               (if among "spy" l
                then check_sharp_ratio_greater_than_spy qs_stats_sharpe Bdf judge ;;; ret tt
                else ret tt))).
  { intros l Hl. destruct l as [|t l]; [discriminate|].
    unfold main_score. now rewrite Hl. }
  split.
  - rewrite (E toks H), (E (without_all toks)) by (now rewrite H1, H2).
    now rewrite H1, H2.
  - intros line Hin. rewrite (E toks H) in Hin.
    apply bind_lines in Hin. destruct Hin as [Hin|[x Hin]].
    + destruct (among "one" toks); [|destruct Hin].
      apply bind_lines in Hin. destruct Hin as [Hin|[y []]].
      now apply (check_one_lines qs_stats_sharpe df judge).
    + destruct (among "spy" toks); [|destruct Hin].
      apply bind_lines in Hin. destruct Hin as [Hin|[y []]].
      now apply (check_spy_lines qs_stats_sharpe Bdf judge).
Qed.

Lemma score_all_ignored_beside_one_or_spy_witness :
  main_score example_sharpe example_price example_price example_judge
             (Some ["spy"%string; "all"%string])
  = main_score example_sharpe example_price example_price example_judge
               (Some (without_all ["spy"%string; "all"%string])) /\
  (forall line,
     In line (fst (main_score example_sharpe example_price example_price example_judge
                              (Some ["spy"%string; "all"%string]))) ->
     total_line line = false).
Proof.
  apply (score_all_ignored_beside_one_or_spy example_sharpe example_price example_price
           example_judge ["spy"%string; "all"%string]).
  reflexivity.
Defined.

(** With [all] alone, the lines of the two threshold checks are printed,
    then the line of the total, which is 0, 15 or 30. *)
Theorem score_all_prints_total
    (qs_stats_sharpe : DataFrame cell -> list cell) (df Bdf : DataFrame cell)
    (judge : AssignmentJudge) (sharpe sharpe_b : list cell) (mp1 b1 b0 : cell) :
  report_metrics qs_stats_sharpe df (mp judge) = Some sharpe ->
  nth_error sharpe 1 = Some mp1 ->
  report_metrics qs_stats_sharpe Bdf (Bmp judge) = Some sharpe_b ->
  nth_error sharpe_b 1 = Some b1 ->
  nth_error sharpe_b 0 = Some b0 ->
  exists line1 line2 total,
    main_score qs_stats_sharpe df Bdf judge (Some ["all"%string])
    = ([line1; line2; total], Some tt) /\
    (total = "==> total Score = 0 <=="%string \/
     total = "==> total Score = 15 <=="%string \/
     total = "==> total Score = 30 <=="%string) /\
    (total = "==> total Score = 30 <=="%string <->
     position_ok judge = true /\ fgtb mp1 (Some 1) = true /\ fgtb b1 b0 = true).
Proof.
  intros Hr Hn Hrb Hn1 Hn0. unfold main_score. cbn [among existsb String.eqb orb].
  cbn -[check_all_answer print show_nat].
  rewrite (check_all_answer_value _ _ _ _ _ _ _ _ _ Hr Hn Hrb Hn1 Hn0).
  unfold threshold_score.
  destruct (position_ok judge), (fgtb mp1 (Some 1)), (fgtb b1 b0);
    do 3 eexists; (split; [reflexivity|]); split;
    try (left; reflexivity); try (right; left; reflexivity);
    try (right; right; reflexivity);
    split; try (intros H; discriminate H);
    try (intros [H1 [H2 H3]]; discriminate); auto.
Qed.

Lemma score_all_prints_total_witness :
  exists line1 line2 total,
    main_score example_sharpe example_price example_price example_judge
               (Some ["all"%string])
    = ([line1; line2; total], Some tt) /\
    (total = "==> total Score = 0 <=="%string \/
     total = "==> total Score = 15 <=="%string \/
     total = "==> total Score = 30 <=="%string) /\
    (total = "==> total Score = 30 <=="%string <->
     position_ok example_judge = true /\ fgtb (Some 2) (Some 1) = true /\
     fgtb (Some 2) (Some (1 / 2)) = true).
Proof.
  apply (score_all_prints_total example_sharpe example_price example_price
           example_judge [Some (1 / 2); Some 2] [Some (1 / 2); Some 2]); reflexivity.
Defined.

(** ** The two components: which assets get a weight *)

(** Whenever the volatilities are numbers, the risk-parity weights are
    numbers above 0 and at most 1: no asset is left out. *)
Theorem rp_weights_positive (vs : list R) :
  vs <> [] ->
  exists ws,
    rp_weights_of (map Some vs) = map Some ws /\
    length ws = length vs /\
    forall x, In x ws -> 0 < x <= 1.
Proof.
  intros Hne. exists (rp_real vs).
  split; [now apply rp_weights_spec|].
  split; [apply rp_real_length|].
  intros x Hx. split; [now apply (rp_real_pos vs)|].
  rewrite <- (rp_real_sum vs Hne). apply in_le_rsum; [|exact Hx].
  intros y Hy. apply Rlt_le. now apply (rp_real_pos vs).
Qed.

Lemma rp_weights_positive_witness :
  exists ws,
    rp_weights_of (map Some [0; 1; 2]) = map Some ws /\
    length ws = length [0; 1; 2] /\
    forall x, In x ws -> 0 < x <= 1.
Proof.
  apply (rp_weights_positive [0; 1; 2]). discriminate.
Defined.


